(** * MeanReversionSMAModification: a shallow embedding of the strategy

    The strategy script composes primitives of the hosting platform
    (pipeline factors and filters, a portfolio optimizer) into one
    pipeline, one pre-open hook and one weekly rebalance.  This file
    embeds the script, function by function, over IEEE-754 binary64
    values, together with a model of the platform primitives the script
    calls, and proves the properties of the composition. *)

From Stdlib Require Import ZArith List Bool String Lia.
From Stdlib Require Import Sorting.Sorted Sorting.Permutation.
From Stdlib Require Import Floats.SpecFloat.
Import ListNotations.

Local Open Scope Z_scope.

(** ** Binary64 floating-point values

    NumPy's float64, as the specification of binary floating point of the
    Standard Library at precision 53 and maximal exponent 1024: signed
    zeros, signed infinities, one NaN, round to nearest even. *)
Module Float64.

Definition prec : Z := 53.
Definition emax : Z := 1024.

Definition float : Type := spec_float.

Definition nan : float := S754_nan.
Definition inf : float := S754_infinity false.
Definition zero : float := S754_zero false.

Definition of_Z (n : Z) : float := binary_normalize prec emax n 0 false.
Definition of_nat (n : nat) : float := of_Z (Z.of_nat n).

Definition add : float -> float -> float := SFadd prec emax.
Definition sub : float -> float -> float := SFsub prec emax.
Definition mul : float -> float -> float := SFmul prec emax.
Definition div : float -> float -> float := SFdiv prec emax.
Definition sqrt : float -> float := SFsqrt prec emax.
Definition opp : float -> float := SFopp.

Definition eqb : float -> float -> bool := SFeqb.
Definition ltb : float -> float -> bool := SFltb.
Definition leb : float -> float -> bool := SFleb.

(** The decimal literal [m / 10^k], correctly rounded (both operands are
    exact for the literals of the script). *)
Definition decimal (m : Z) (k : nat) : float :=
  div (of_Z m) (of_Z (10 ^ Z.of_nat k)).

Definition one : float := of_Z 1.

Definition isnan (x : float) : bool :=
  match x with S754_nan => true | _ => false end.

Definition isinf (x : float) : bool :=
  match x with S754_infinity _ => true | _ => false end.

Definition isfinite (x : float) : bool :=
  match x with S754_zero _ | S754_finite _ _ _ => true | _ => false end.

Definition iszero (x : float) : bool :=
  match x with S754_zero _ => true | _ => false end.

(** [floor x] for a finite [x]; Python raises on NaN and infinities, which
    the callers below never pass (0 stands in for them). *)
Definition floor (x : float) : Z :=
  match x with
  | S754_finite s m e =>
      let n := if s then Zneg m else Zpos m in
      if 0 <=? e then n * 2 ^ e else n / 2 ^ (- e)
  | _ => 0
  end.

Definition ceil (x : float) : Z := - floor (opp x).

(** Python's [int(x)]: truncation towards zero. *)
Definition trunc (x : float) : Z :=
  if ltb x zero then ceil x else floor x.

End Float64.

Import Float64.

(** ** The platform: data, factors and filters

    The script imports its primitives from the hosting platform (the
    pipeline API, NumPy, pandas, the optimizer); none of them is part of
    the repository.  They are modelled here after their documented
    behaviour, as far as the script uses them: element-wise binary64
    arithmetic, reductions that skip NaN, masks, row transforms applied
    inside a mask, percentiles with linear interpolation.  A mean is one
    pass over its input from the first entry on, for a window from the
    oldest day on, that skips NaN. *)

Definition asset : Type := string.

(** The data-set columns the script reads. *)
Inductive BoundColumn : Type :=
| USEquityPricing_close
| stocktwits_bull_minus_bear
| stocktwits_total_scanned_messages.

(** What the platform holds on one trading day: the assets that exist, the
    members of the tradable universe, and for each column and asset the
    value [k] trading days back ([k = 0] is the latest), NaN where there
    is none. *)
Record market : Type := {
  assets : list asset;
  tradable : asset -> bool;
  history : BoundColumn -> asset -> nat -> float
}.

Definition Filter : Type := market -> asset -> bool.

(** A factor carries the mask it was built with: [zscore] and [winsorize]
    read it. *)
Record Factor : Type := {
  mask : Filter;
  value : market -> asset -> float
}.

Definition AssetExists : Filter := fun _ _ => true.
Definition QTradableStocksUS : Filter := fun m a => tradable m a.

Definition Filter_and (f g : Filter) : Filter := fun m a => f m a && g m a.
Definition Filter_or (f g : Filter) : Filter := fun m a => f m a || g m a.

(** Arithmetic on factors is element-wise binary64 arithmetic; the result
    has the default mask. *)
Definition Factor_mul (f g : Factor) : Factor :=
  {| mask := AssetExists; value := fun m a => mul (value f m a) (value g m a) |}.
Definition Factor_div (f g : Factor) : Factor :=
  {| mask := AssetExists; value := fun m a => div (value f m a) (value g m a) |}.

Declare Scope factor_scope.
Delimit Scope factor_scope with factor.
Infix "*" := Factor_mul : factor_scope.
Infix "/" := Factor_div : factor_scope.

Declare Scope filter_scope.
Delimit Scope filter_scope with filter.
Infix "&&" := Filter_and : filter_scope.
Infix "||" := Filter_or : filter_scope.

(** *** Reductions that skip NaN *)

Definition nonnan (l : list float) : list float :=
  filter (fun x => negb (isnan x)) l.

Definition sum (l : list float) : float := fold_left add l zero.

(** [numpy.nanmean]: the mean of the entries that are not NaN; NaN (0/0)
    when there is none. *)
Definition nanmean (l : list float) : float :=
  div (sum (nonnan l)) (of_nat (List.length (nonnan l))).

(** [numpy.nanstd], population standard deviation. *)
Definition nanstd (l : list float) : float :=
  let mu := nanmean l in
  sqrt (nanmean (map (fun x => mul (sub x mu) (sub x mu)) l)).

(** *** Windowed factors *)

(** The last [n] values of a column for one asset, oldest first, as the
    platform hands them to a windowed factor. *)
Definition window (m : market) (c : BoundColumn) (a : asset) (n : nat) : list float :=
  map (history m c a) (rev (seq 0 n)).

(** [SimpleMovingAverage(inputs=[c], window_length=n, mask=msk)]: the
    NaN-skipping mean of the last [n] values, missing outside the mask. *)
Definition SimpleMovingAverage (c : BoundColumn) (window_length : nat) (msk : Filter) : Factor :=
  {| mask := msk;
     value := fun m a => if msk m a then nanmean (window m c a window_length) else nan |}.

(** [Returns(window_length=n, mask=msk)]: relative change of the close
    between the first and the last day of the window. *)
Definition Returns (window_length : nat) (msk : Filter) : Factor :=
  {| mask := msk;
     value := fun m a =>
       if msk m a then
         let last := history m USEquityPricing_close a 0 in
         let first := history m USEquityPricing_close a (Nat.pred window_length) in
         div (sub last first) first
       else nan |}.

(** *** Cross-sectional transforms *)

Fixpoint insert (x : float) (l : list float) : list float :=
  match l with
  | [] => [x]
  | y :: l' => if leb x y then x :: l else y :: insert x l'
  end.

(** Ascending sort of a list without NaN. *)
Definition sort (l : list float) : list float := fold_right insert [] l.

(** The order of [numpy.argsort]: ascending, NaN after every number. *)
Definition nan_last_leb (x y : float) : bool := isnan y || leb x y.

Fixpoint insert_index (row : list float) (i : nat) (l : list nat) : list nat :=
  match l with
  | [] => [i]
  | j :: l' =>
      if nan_last_leb (nth i row nan) (nth j row nan) then i :: l
      else j :: insert_index row i l'
  end.

(** [row.argsort()]: the positions of [row] in ascending order of their
    values.  Equal values keep their order; the platform's sort may order
    them otherwise, which changes no value written by [winsorize_row]
    except the sign of a zero. *)
Definition argsort (row : list float) : list nat :=
  fold_right (insert_index row) [] (seq 0 (List.length row)).

Fixpoint set_nth (i : nat) (v : float) (l : list float) : list float :=
  match l, i with
  | [], _ => []
  | _ :: l', O => v :: l'
  | x :: l', S i' => x :: set_nth i' v l'
  end.

(** [a[positions] = v] *)
Definition assign (a : list float) (positions : list nat) (v : float) : list float :=
  fold_left (fun acc i => set_nth i v acc) positions a.

(** [idx[lo:hi]] *)
Definition slice {A : Type} (l : list A) (lo hi : nat) : list A :=
  firstn (hi - lo) (skipn lo l).

(** The platform's row function behind [Factor.winsorize]: the
    [int(min_percentile * n)] lowest entries take the value of the next
    one in rank, the entries from rank [ceil(n * max_percentile)] on take
    the value of the one before, [n] counting the entries that are not
    NaN; NaN entries stay. *)
Definition winsorize_row (min_percentile max_percentile : float) (row : list float) : list float :=
  let nan_count := List.length (filter isnan row) in
  let nonnan_count := (List.length row - nan_count)%nat in
  let idx := argsort row in
  let a :=
    if ltb zero min_percentile then
      let lower_cutoff := Z.to_nat (trunc (mul min_percentile (of_nat nonnan_count))) in
      assign row (firstn lower_cutoff idx) (nth (nth lower_cutoff idx O) row nan)
    else row in
  if ltb max_percentile one then
    let upper_cutoff := Z.to_nat (ceil (mul (of_nat nonnan_count) max_percentile)) in
    if (upper_cutoff <? nonnan_count)%nat then
      assign a (slice idx upper_cutoff nonnan_count)
             (nth (nth (upper_cutoff - 1) idx O) a nan)
    else a
  else a.

(** The row function behind [Factor.zscore]:
    [(row - nanmean(row)) / nanstd(row)]. *)
Definition zscore_row (row : list float) : list float :=
  let mu := nanmean row in
  let sd := nanstd row in
  map (fun x => div (sub x mu) sd) row.

Definition Series : Type := list (asset * float).

Fixpoint lookup {V : Type} (k : string) (l : list (string * V)) : option V :=
  match l with
  | [] => None
  | (k', v) :: l' => if String.eqb k k' then Some v else lookup k l'
  end.

(** A row transform applied to the assets of the mask only; every other
    asset gets the missing value.  Without a mask of its own the
    transform takes the mask of the factor it is applied to. *)
Definition GroupedRowTransform
    (transform : list float -> list float) (f : Factor) (msk : option Filter) : Factor :=
  let msk' := match msk with
              | None => mask f
              | Some k => Filter_and k (mask f)
              end in
  {| mask := msk';
     value := fun m a =>
       let cols := filter (msk' m) (assets m) in
       let out := transform (map (value f m) cols) in
       if msk' m a then
         match lookup a (combine cols out) with Some v => v | None => nan end
       else nan |}.

Definition zscore (f : Factor) : Factor :=
  GroupedRowTransform zscore_row f None.

Definition winsorize (f : Factor) (min_percentile max_percentile : float) (msk : Filter) : Factor :=
  GroupedRowTransform (winsorize_row min_percentile max_percentile) f (Some msk).

(** [numpy.nanpercentile(row, q)] with linear interpolation between the
    two nearest ranks of the sorted entries that are not NaN. *)
Definition nanpercentile (row : list float) (q : float) : float :=
  let ap := sort (nonnan row) in
  let Nx := List.length ap in
  match Nx with
  | O => nan
  | S Nx1 =>
      let indices := mul (div q (of_Z 100)) (of_nat Nx1) in
      let below := Z.to_nat (floor indices) in
      let above := Nat.min (below + 1) Nx1 in
      let weights_above := sub indices (of_nat below) in
      let weights_below := sub one weights_above in
      add (mul (nth below ap nan) weights_below) (mul (nth above ap nan) weights_above)
  end.

(** The data a percentile filter ranks: the factor inside the mask, NaN
    outside. *)
Definition masked (f : Factor) (msk : Filter) (m : market) (a : asset) : float :=
  if msk m a then value f m a else nan.

(** [f.percentile_between(min_percentile, max_percentile, mask=msk)]:
    both bounds are inclusive, and NaN data is never between them. *)
Definition percentile_between
    (f : Factor) (min_percentile max_percentile : float) (msk : Filter) : Filter :=
  fun m a =>
    let row := map (masked f msk m) (assets m) in
    leb (nanpercentile row min_percentile) (masked f msk m a)
    && leb (masked f msk m a) (nanpercentile row max_percentile).

(** *** Pipelines and their output *)

Record Pipeline : Type := {
  columns : list (string * Factor);
  screen : Filter
}.

(** A frame is its columns by name; every column is indexed by the assets
    that pass the screen, in the order of the assets. *)
Definition DataFrame : Type := list (string * Series).

Definition run_pipeline (p : Pipeline) (m : market) : DataFrame :=
  let rows := filter (screen p m) (assets m) in
  map (fun c => (fst c, map (fun a => (a, value (snd c) m a)) rows)) (columns p).

Definition Series_fillna (s : Series) (v : float) : Series :=
  map (fun r => (fst r, if isnan (snd r) then v else snd r)) s.

Definition DataFrame_fillna (df : DataFrame) (v : float) : DataFrame :=
  map (fun c => (fst c, Series_fillna (snd c) v)) df.

(** [s.replace(to_replace, v)]: entries equal to one of [to_replace]
    become [v]. *)
Definition Series_replace (s : Series) (to_replace : list float) (v : float) : Series :=
  map (fun r => (fst r, if existsb (eqb (snd r)) to_replace then v else snd r)) s.

Definition Series_neg (s : Series) : Series :=
  map (fun r => (fst r, opp (snd r))) s.

(** *** The optimizer's request *)

Inductive Objective : Type :=
| MaximizeAlpha (alphas : Series).

Inductive Constraint : Type :=
| MaxGrossExposure (max : float)
| PositionConcentration_with_equal_bounds (min max : float)
| DollarNeutral.

Record OptimizationRequest : Type := {
  objective : Objective;
  constraints : list Constraint
}.

(** *** The algorithm's registrations and its context *)

Inductive callback : Type := Rebalance.
Inductive date_rule : Type := week_start (days_offset : nat).
Inductive time_rule : Type := market_open (hours minutes : nat).

Record algo : Type := {
  scheduled : list (callback * date_rule * time_rule);
  attached : list (string * Pipeline)
}.

Definition no_registrations : algo := {| scheduled := []; attached := [] |}.

Definition schedule_function (al : algo) (f : callback) (d : date_rule) (t : time_rule) : algo :=
  {| scheduled := scheduled al ++ [(f, d, t)]; attached := attached al |}.

Definition attach_pipeline (al : algo) (p : Pipeline) (name : string) : algo :=
  {| scheduled := scheduled al; attached := (name, p) :: attached al |}.

(** [algo.pipeline_output(name)] on the day whose data is [m]; [None]
    when no pipeline has that name. *)
Definition pipeline_output (al : algo) (name : string) (m : market) : option DataFrame :=
  option_map (fun p => run_pipeline p m) (lookup name (attached al)).

(** The attributes the script sets on the context object; an attribute
    that was never assigned is [None]. *)
Module Context.
Record t : Type := {
  output : option DataFrame;
  total_score : option Series
}.
Definition empty : t := {| output := None; total_score := None |}.
End Context.

Definition context : Type := Context.t.

(** ** The strategy script *)

Definition MAX_GROSS_EXPOSURE : float := decimal 10 1.           (* 1.0 *)
Definition MAX_POSITION_CONCENTRATION : float := decimal 25 3.   (* 0.025 *)
Definition RETURNS_LOOKBACK_DAYS : nat := 7.

(** *** [make_pipeline] *)

Definition universe : Filter := QTradableStocksUS.

Definition mean_close_50 : Factor :=
  SimpleMovingAverage USEquityPricing_close 50 universe.
Definition mean_close_200 : Factor :=
  SimpleMovingAverage USEquityPricing_close 200 universe.

Definition mean_average_multiplier : Factor :=
  (mean_close_200 / mean_close_50)%factor.

Definition bull_m_bear : Factor :=
  SimpleMovingAverage stocktwits_bull_minus_bear RETURNS_LOOKBACK_DAYS universe.
Definition total_messages : Factor :=
  SimpleMovingAverage stocktwits_total_scanned_messages RETURNS_LOOKBACK_DAYS universe.

Definition sentiment_score : Factor :=
  (total_messages / bull_m_bear)%factor.
Definition sentiment_score_winsorized : Factor :=
  winsorize sentiment_score (decimal 1 2) (decimal 95 2) universe.

Definition recent_returns : Factor :=
  Returns RETURNS_LOOKBACK_DAYS universe.
Definition recent_returns_zscore : Factor :=
  zscore recent_returns.

(** The screen, the score and the pipeline, for the factor that is ranked
    and multiplied in: the script's is [recent_returns_zscore]. *)
Section Composite.

Variable returns_zscore : Factor.

Definition low_returns : Filter :=
  percentile_between returns_zscore (of_Z 0) (of_Z 25) universe.
Definition high_returns : Filter :=
  percentile_between returns_zscore (of_Z 75) (of_Z 100) universe.

Definition securities_to_trade : Filter :=
  ((low_returns || high_returns) && universe)%filter.

Definition total_score : Factor :=
  (sentiment_score_winsorized * returns_zscore * mean_average_multiplier)%factor.

Definition pipe : Pipeline :=
  {| columns := [("total_score"%string, total_score)];
     screen := securities_to_trade |}.

End Composite.

Definition make_pipeline (ctx : context) : Pipeline :=
  pipe recent_returns_zscore.

(** *** [initialize] *)

Definition initialize (ctx : context) : algo :=
  let al := schedule_function no_registrations Rebalance (week_start 0) (market_open 1 30) in
  attach_pipeline al (make_pipeline ctx) "mean_reversion_example".

(** *** [before_trading_start]

    [None] stands for the exception of a missing pipeline or column. *)
Definition before_trading_start (al : algo) (ctx : context) (m : market) : option context :=
  match pipeline_output al "mean_reversion_example" m with
  | None => None
  | Some df =>
      let output := DataFrame_fillna df (of_Z 1) in
      match lookup "total_score" output with
      | None => None
      | Some col =>
          Some {| Context.output := Some output;
                  Context.total_score := Some (Series_replace col [inf; opp inf] (of_Z 1)) |}
      end
  end.

(** *** [rebalance]

    The request handed to [order_optimal_portfolio]; [None] stands for the
    exception of reading a score that was never staged. *)
Definition rebalance (ctx : context) : option OptimizationRequest :=
  match Context.total_score ctx with
  | None => None
  | Some staged =>
      let objective := MaximizeAlpha (Series_neg staged) in
      let max_gross_exposure := MaxGrossExposure MAX_GROSS_EXPOSURE in
      let max_position_concentration :=
        PositionConcentration_with_equal_bounds
          (opp MAX_POSITION_CONCENTRATION) MAX_POSITION_CONCENTRATION in
      let dollar_neutral := DollarNeutral in
      let constraints := [max_gross_exposure; max_position_concentration; dollar_neutral] in
      Some {| objective := objective; constraints := constraints |}
  end.

(** ** Vocabulary of the properties *)

(** The registrations of the algorithm once [initialize] has run. *)
Definition the_algo : algo := initialize Context.empty.

(** The scores the pre-open hook stages on a day. *)
Definition staged_scores (ctx : context) (m : market) : option Series :=
  match before_trading_start the_algo ctx m with
  | Some ctx' => Context.total_score ctx'
  | None => None
  end.

(** The column of composite scores the pipeline puts out on a day. *)
Definition composite_scores (ctx : context) (m : market) : option Series :=
  lookup "total_score" (run_pipeline (make_pipeline ctx) m).

(** The product of the three factors for one security. *)
Definition factor_product (m : market) (a : asset) : float :=
  mul (mul (value sentiment_score_winsorized m a) (value recent_returns_zscore m a))
      (value mean_average_multiplier m a).

(** What the two substitutions of the pre-open hook do to one score. *)
Definition coerced (x : float) : float :=
  let y := if isnan x then of_Z 1 else x in
  if existsb (eqb y) [inf; opp inf] then of_Z 1 else y.

(** The z-scores of the members of the universe. *)
Definition universe_zscores (z : Factor) (m : market) : list float :=
  map (value z m) (filter (universe m) (assets m)).

(** [x] lies in the band between the percentiles [lo] and [hi] of the
    distribution [dist], bounds included. *)
Definition in_band (lo hi : Z) (dist : list float) (x : float) : Prop :=
  leb (nanpercentile dist (of_Z lo)) x = true /\
  leb x (nanpercentile dist (of_Z hi)) = true.

(** A security of the universe whose z-score lies in the bottom or in the
    top quartile band of the universe. *)
Definition eligible (z : Factor) (m : market) (a : asset) : Prop :=
  In a (assets m) /\ universe m a = true /\
  (in_band 0 25 (universe_zscores z m) (value z m a) \/
   in_band 75 100 (universe_zscores z m) (value z m a)).

(** A missing factor read as 1.0, and the score the product would have
    with every missing factor read so. *)
Definition substituted (x : float) : float := if isnan x then one else x.

Definition product_of_remaining (m : market) (a : asset) : float :=
  mul (mul (substituted (value sentiment_score_winsorized m a))
           (substituted (value recent_returns_zscore m a)))
      (substituted (value mean_average_multiplier m a)).

(** Two days on which the universe and the five raw factors agree. *)
Definition same_raw_factors (m1 m2 : market) : Prop :=
  assets m1 = assets m2 /\
  forall a, In a (assets m1) ->
    universe m1 a = universe m2 a /\
    value mean_close_50 m1 a = value mean_close_50 m2 a /\
    value mean_close_200 m1 a = value mean_close_200 m2 a /\
    value bull_m_bear m1 a = value bull_m_bear m2 a /\
    value total_messages m1 a = value total_messages m2 a /\
    value recent_returns m1 a = value recent_returns m2 a.

(** Two factors, or two filters, that agree on the securities of two days. *)
Definition agree (m1 m2 : market) (f : Factor) : Prop :=
  forall a, In a (assets m1) -> value f m1 a = value f m2 a.
Definition agree_filter (m1 m2 : market) (k : Filter) : Prop :=
  forall a, In a (assets m1) -> k m1 a = k m2 a.

(** *** Ranks and clipping *)

(** The sentiment ratios of the members of the universe. *)
Definition universe_sentiment (m : market) : list float :=
  map (value sentiment_score m) (filter (universe m) (assets m)).

(** How many entries of a row are numbers. *)
Definition count_nonnan (row : list float) : nat :=
  (List.length row - List.length (filter isnan row))%nat.

(** The value of rank [k], counting from 0, in ascending order. *)
Definition rank_value (row : list float) (k : nat) : float :=
  nth (nth k (argsort row) O) row nan.

(** The two cut-off ranks of [winsorize_row] among [n] numbers. *)
Definition lower_rank (p : float) (n : nat) : nat :=
  Z.to_nat (trunc (mul p (of_nat n))).
Definition upper_rank (p : float) (n : nat) : nat :=
  Z.to_nat (ceil (mul (of_nat n) p)).

(** The percentile values the winsorization clips to, and clipping. *)
Definition low_percentile_value (p : float) (row : list float) : float :=
  rank_value row (lower_rank p (count_nonnan row)).
Definition high_percentile_value (p : float) (row : list float) : float :=
  rank_value row
    (Nat.min (upper_rank p (count_nonnan row)) (count_nonnan row) - 1)%nat.

Definition clip (lo hi x : float) : float :=
  if ltb x lo then lo else if ltb hi x then hi else x.

(** The lower cut-off rank lies below the upper one and below the count:
    so it is in exact arithmetic; in binary64 it is checked size by size. *)
Definition ranks_in_order (pmin pmax : float) (n : nat) : bool :=
  (n =? 0)%nat || (lower_rank pmin n <? Nat.min (upper_rank pmax n) n)%nat.

Definition ranks_in_order_Z (pmin pmax : float) (z : Z) : bool :=
  Z.max 0 (trunc (mul pmin (of_Z z))) <? Z.min (ceil (mul (of_Z z) pmax)) z.

Fixpoint all_from (f : Z -> bool) (z : Z) (count : nat) : bool :=
  match count with
  | O => true
  | S c => if f z then all_from f (z + 1) c else false
  end.

(** The universe sizes for which the order of the ranks is checked. *)
Definition checked_universe_size : nat := Z.to_nat 10000.

(** The position of [i] is before the position of [j] in the order of
    [argsort]. *)
Definition before (row : list float) (i j : nat) : Prop :=
  nan_last_leb (nth i row nan) (nth j row nan) = true.

(** Binary64 values as keys of a lexicographic order on integers:
    class, exponent, mantissa. *)
Definition key (x : float) : Z * Z * Z :=
  match x with
  | S754_nan => (3, 0, 0)
  | S754_infinity true => (-2, 0, 0)
  | S754_infinity false => (2, 0, 0)
  | S754_zero _ => (0, 0, 0)
  | S754_finite true m e => (-1, - e, Zneg m)
  | S754_finite false m e => (1, e, Zpos m)
  end.

Definition key_le (k1 k2 : Z * Z * Z) : Prop :=
  let '(c1, e1, m1) := k1 in
  let '(c2, e2, m2) := k2 in
  c1 < c2 \/ (c1 = c2 /\ (e1 < e2 \/ (e1 = e2 /\ m1 <= m2))).

(** A security with a missing factor: one of the averages of the close
    or the winsorized sentiment ratio is NaN, or, on a day whose universe
    has a checked size, one of the sentiment averages is.  (A security
    with a missing z-score is never traded.) *)
Definition has_missing_factor (m : market) (a : asset) : Prop :=
  isnan (value mean_close_50 m a) = true \/
  isnan (value mean_close_200 m a) = true \/
  isnan (value sentiment_score_winsorized m a) = true \/
  ((isnan (value bull_m_bear m a) = true \/ isnan (value total_messages m a) = true) /\
   (List.length (filter (universe m) (assets m)) <= checked_universe_size)%nat).

(** Twenty ratios, 1 to 20, for twenty members of a universe. *)
Definition twenty_ratios : list float := map of_Z [1; 2; 3; 4; 5; 6; 7; 8; 9; 10;
                                                   11; 12; 13; 14; 15; 16; 17; 18; 19; 20].

(** *** Example data *)

Definition by_symbol (table : list (string * float)) (a : asset) : float :=
  match lookup a table with Some v => v | None => nan end.

(** Four securities with the z-scores -2.0, -0.5, 0.5 and 2.0. *)
Definition scenario_zscores : Factor :=
  {| mask := AssetExists;
     value := fun _ => by_symbol [("A", of_Z (-2)); ("B", decimal (-5) 1);
                                  ("C", decimal 5 1); ("D", of_Z 2)]%string |}.

Definition scenario_market (h : BoundColumn -> asset -> nat -> float) : market :=
  {| assets := ["A"; "B"; "C"; "D"]%string; tradable := fun _ => true; history := h |}.

(** A day with four tradable securities.  The close was 10 on every
    earlier day and is 9, 10, 11 and 12 today; A has no sentiment data,
    and the bull-minus-bear value of D is zero on every day. *)
Definition demo_history (c : BoundColumn) (a : asset) (k : nat) : float :=
  match c with
  | USEquityPricing_close =>
      match k with
      | O => by_symbol [("A", of_Z 9); ("B", of_Z 10); ("C", of_Z 11); ("D", of_Z 12)]%string a
      | S _ => of_Z 10
      end
  | stocktwits_bull_minus_bear =>
      by_symbol [("B", of_Z 2); ("C", of_Z 2); ("D", zero)]%string a
  | stocktwits_total_scanned_messages =>
      by_symbol [("B", of_Z 6); ("C", of_Z 6); ("D", of_Z 6)]%string a
  end.

Definition demo_market : market :=
  {| assets := ["A"; "B"; "C"; "D"]%string; tradable := fun _ => true;
     history := demo_history |}.

(** The same day with another past: the close of 300 days ago differs. *)
Definition demo_market' : market :=
  {| assets := ["A"; "B"; "C"; "D"]%string; tradable := fun _ => true;
     history := fun c a k => if (k =? 300)%nat then of_Z 1 else demo_history c a k |}.

Definition demo_context : context :=
  {| Context.output := None;
     Context.total_score := Some [("A", of_Z 3); ("D", decimal (-15) 1)]%string |}.

(** *** Further vocabulary *)

(** Two days on which the universe agrees and, for its members, the
    windows the pipeline reads: 200 days of close, 7 days of each
    sentiment column. *)
Definition same_windows (m1 m2 : market) : Prop :=
  assets m1 = assets m2 /\
  forall a, In a (assets m1) ->
    universe m1 a = universe m2 a /\
    (universe m1 a = true ->
     (forall k, (k < 200)%nat ->
        history m1 USEquityPricing_close a k = history m2 USEquityPricing_close a k) /\
     (forall k, (k < 7)%nat ->
        history m1 stocktwits_bull_minus_bear a k
        = history m2 stocktwits_bull_minus_bear a k) /\
     (forall k, (k < 7)%nat ->
        history m1 stocktwits_total_scanned_messages a k
        = history m2 stocktwits_total_scanned_messages a k)).

(** A day on which no security is tradable. *)
Definition closed_market : market :=
  {| assets := ["A"; "B"]%string; tradable := fun _ => false; history := demo_history |}.

(** The example day with the close of B missing six days back. *)
Definition gap_market : market :=
  {| assets := ["A"; "B"; "C"; "D"]%string; tradable := fun _ => true;
     history := fun c a k =>
       match c, k with
       | USEquityPricing_close, 6%nat => if String.eqb a "B" then nan else demo_history c a k
       | _, _ => demo_history c a k
       end |}.

(** The percentile [q] of an ascending list of numbers, by linear
    interpolation between the two nearest ranks. *)
Definition percentile_of_sorted (s : list float) (q : float) : float :=
  match List.length s with
  | O => nan
  | S n1 =>
      let indices := mul (div q (of_Z 100)) (of_nat n1) in
      let below := Z.to_nat (floor indices) in
      let above := Nat.min (below + 1) n1 in
      let weights_above := sub indices (of_nat below) in
      let weights_below := sub one weights_above in
      add (mul (nth below s nan) weights_below) (mul (nth above s nan) weights_above)
  end.

(** A list in ascending order of binary64 values. *)
Definition ascending (s : list float) : Prop :=
  StronglySorted (fun x y => leb x y = true) s.

(** The four securities of the scenario with z-scores that are not in
    the order of the securities: 0.5, 2.0, -2.0 and -0.5. *)
Definition unsorted_zscores : Factor :=
  {| mask := AssetExists;
     value := fun _ => by_symbol [("A", decimal 5 1); ("B", of_Z 2);
                                  ("C", of_Z (-2)); ("D", decimal (-5) 1)]%string |}.

(** A day with twenty tradable securities S01 to S20, listed from S11 to
    S20 and then from S10 down to S01.  The value [k] days back is, in
    tenths, [k mod 6 + 1] for bull-minus-bear, that times the number of
    the security for the message count, and that plus the number of the
    security for the close. *)
Definition twenty_names : list asset :=
  ["S01"; "S02"; "S03"; "S04"; "S05"; "S06"; "S07"; "S08"; "S09"; "S10";
   "S11"; "S12"; "S13"; "S14"; "S15"; "S16"; "S17"; "S18"; "S19"; "S20"]%string.

Definition twenty_listed : list asset :=
  (skipn 10 twenty_names ++ rev (firstn 10 twenty_names))%list.

Fixpoint number_in (names : list asset) (a : asset) (k : Z) : Z :=
  match names with
  | [] => 0
  | b :: rest => if String.eqb a b then k else number_in rest a (k + 1)
  end.

Definition tenths (k : nat) : Z := Z.of_nat (k mod 6) + 1.

Definition twenty_history (c : BoundColumn) (a : asset) (k : nat) : float :=
  match c with
  | USEquityPricing_close => decimal (tenths k + number_in twenty_names a 1) 1
  | stocktwits_bull_minus_bear => decimal (tenths k) 1
  | stocktwits_total_scanned_messages => decimal (number_in twenty_names a 1 * tenths k) 1
  end.

Definition twenty_market : market :=
  {| assets := twenty_listed; tradable := fun _ => true; history := twenty_history |}.

(** ** Basic facts *)

Local Open Scope string_scope.

Section Lookup.

Context {V : Type}.

Lemma lookup_map_key (g : string -> V) (l : list string) (a : string) :
  In a l -> lookup a (map (fun x => (x, g x)) l) = Some (g a).
Proof.
  induction l as [|x l IH]; simpl; [tauto|].
  intros [->|Hin].
  - now rewrite String.eqb_refl.
  - destruct (String.eqb_spec a x) as [->|_]; auto.
Qed.

Lemma lookup_map_key_none (g : string -> V) (l : list string) (a : string) :
  ~ In a l -> lookup a (map (fun x => (x, g x)) l) = None.
Proof.
  induction l as [|x l IH]; simpl; [reflexivity|].
  intros Hn. destruct (String.eqb_spec a x) as [->|_]; [tauto|].
  apply IH. tauto.
Qed.

Lemma lookup_In (l : list (string * V)) (a : string) (v : V) :
  lookup a l = Some v -> In (a, v) l.
Proof.
  induction l as [|[k w] l IH]; simpl; [discriminate|].
  destruct (String.eqb_spec a k) as [->|_].
  - intros [= ->]. now left.
  - intros H. right. auto.
Qed.

Lemma lookup_map_snd {W : Type} (h : V -> W) (l : list (string * V)) (a : string) :
  lookup a (map (fun r => (fst r, h (snd r))) l) = option_map h (lookup a l).
Proof.
  induction l as [|[k w] l IH]; simpl; [reflexivity|].
  now destruct (String.eqb a k).
Qed.

End Lookup.

Lemma run_pipe_column (z : Factor) (m : market) :
  lookup "total_score" (run_pipeline (pipe z) m)
  = Some (map (fun a => (a, value (total_score z) m a))
              (filter (securities_to_trade z m) (assets m))).
Proof. reflexivity. Qed.

Lemma composite_scores_eq (ctx : context) (m : market) :
  composite_scores ctx m
  = Some (map (fun a => (a, factor_product m a))
              (filter (securities_to_trade recent_returns_zscore m) (assets m))).
Proof. reflexivity. Qed.

Lemma coerced_finite (x : float) : isfinite (coerced x) = true.
Proof. destruct x as [s|s| |s p e]; try destruct s; reflexivity. Qed.

Lemma coerced_of_finite (x : float) : isfinite x = true -> coerced x = x.
Proof.
  destruct x as [s|s| |s p e]; try destruct s; intros H;
    try discriminate H; reflexivity.
Qed.

Lemma coerced_not_finite (x : float) : isfinite x = false -> coerced x = of_Z 1.
Proof.
  destruct x as [s|s| |s p e]; try destruct s; intros H;
    try discriminate H; reflexivity.
Qed.

Lemma replace_fillna (s : Series) :
  Series_replace (Series_fillna s (of_Z 1)) [inf; opp inf] (of_Z 1)
  = map (fun r => (fst r, coerced (snd r))) s.
Proof.
  unfold Series_replace, Series_fillna. rewrite map_map.
  apply map_ext. intros [a x]. reflexivity.
Qed.

(** The pre-open hook always succeeds on the algorithm as initialized,
    and overwrites both attributes of the context. *)
Lemma before_trading_start_eq (ctx : context) (m : market) :
  before_trading_start the_algo ctx m
  = Some {| Context.output :=
              Some (DataFrame_fillna (run_pipeline (make_pipeline Context.empty) m) (of_Z 1));
            Context.total_score :=
              Some (map (fun a => (a, coerced (factor_product m a)))
                        (filter (securities_to_trade recent_returns_zscore m) (assets m))) |}.
Proof.
  unfold before_trading_start, the_algo, initialize, pipeline_output. simpl.
  do 3 f_equal. rewrite replace_fillna, map_map. reflexivity.
Qed.

Lemma staged_scores_eq (ctx : context) (m : market) :
  staged_scores ctx m
  = Some (map (fun a => (a, coerced (factor_product m a)))
              (filter (securities_to_trade recent_returns_zscore m) (assets m))).
Proof. unfold staged_scores. now rewrite before_trading_start_eq. Qed.

Lemma mul_nan_r (x : float) : mul x nan = nan.
Proof. now destruct x. Qed.

Lemma div_by_zero_not_finite (x y : float) :
  iszero y = true -> isfinite (div x y) = false.
Proof. destruct y; try discriminate. now destruct x. Qed.

(** ** The composite score *)

(** C1. The [total_score] column of the pipeline is, security by
    security, the winsorized sentiment ratio times the return z-score
    times the trend ratio; every entry of the pipeline's output is that
    product for its security, and it is staged as it is when it is
    finite. *)
Theorem composite_score_is_product (ctx : context) (m : market) :
  (exists f, lookup "total_score" (columns (make_pipeline ctx)) = Some f /\
     forall a, value f m a
               = mul (mul (value sentiment_score_winsorized m a)
                          (value recent_returns_zscore m a))
                     (value mean_average_multiplier m a)) /\
  (exists scores staged,
     composite_scores ctx m = Some scores /\
     staged_scores ctx m = Some staged /\
     (forall a v, In (a, v) scores ->
        v = mul (mul (value sentiment_score_winsorized m a)
                     (value recent_returns_zscore m a))
                (value mean_average_multiplier m a)) /\
     (forall a, In a (assets m) ->
        securities_to_trade recent_returns_zscore m a = true ->
        lookup a scores = Some (factor_product m a) /\
        (isfinite (factor_product m a) = true ->
         lookup a staged = Some (factor_product m a)))).
Proof.
  split.
  - exists (total_score recent_returns_zscore). split; reflexivity.
  - rewrite composite_scores_eq, staged_scores_eq. do 2 eexists.
    split; [reflexivity|]. split; [reflexivity|]. split.
    + intros a v Hin. apply in_map_iff in Hin.
      destruct Hin as (b & [= <- <-] & _). reflexivity.
    + intros a Hin Hs.
      assert (Hf : In a (filter (securities_to_trade recent_returns_zscore m) (assets m)))
        by (apply filter_In; now split).
      split.
      * now apply lookup_map_key.
      * intros Hfin. rewrite (lookup_map_key _ _ _ Hf).
        now rewrite coerced_of_finite.
Qed.

Lemma nonnan_all (l : list float) :
  (forall x, In x l -> isnan x = false) -> nonnan l = l.
Proof.
  unfold nonnan. induction l as [|x l IH]; intros H; simpl; [reflexivity|].
  rewrite (H x (or_introl eq_refl)). simpl. f_equal.
  apply IH. intros y Hy. apply H. now right.
Qed.

(** The mean of a window without a missing value is its sum over its
    length. *)
Lemma nanmean_full_window (m : market) (c : BoundColumn) (a : asset) (n : nat) :
  (forall k, (k < n)%nat -> isnan (history m c a k) = false) ->
  nanmean (window m c a n) = div (sum (window m c a n)) (of_nat n).
Proof.
  intros H. unfold nanmean. rewrite nonnan_all.
  - unfold window. now rewrite length_map, length_rev, length_seq.
  - intros x Hx. unfold window in Hx. apply in_map_iff in Hx.
    destruct Hx as (k & <- & Hk). apply in_rev, in_seq in Hk. apply H. lia.
Qed.

Lemma tenths_range (k : nat) : 1 <= tenths k <= 6.
Proof.
  unfold tenths. pose proof (Nat.mod_upper_bound k 6). lia.
Qed.

Lemma decimal_tenths_is_number (z : Z) : 1 <= z <= 26 -> isnan (decimal z 1) = false.
Proof.
  intros H.
  assert (C : forallb (fun i => negb (isnan (decimal i 1)))
                      (map Z.of_nat (seq 1 26)) = true) by (vm_compute; reflexivity).
  rewrite forallb_forall in C. apply negb_true_iff. apply C.
  apply in_map_iff. exists (Z.to_nat z). split; [lia|]. apply in_seq. lia.
Qed.

(** C8. For a member of the universe the trend ratio is the mean of its
    last 200 closes divided by the mean of its last 50 closes, the
    200-day mean in the numerator; each mean adds the closes that are not
    missing from the oldest day on, starting from zero, and divides by
    their number, which is the length of the window when no close is
    missing. *)
Theorem trend_ratio_is_sma200_over_sma50 (m : market) (a : asset) :
  universe m a = true ->
  let closes n := map (history m USEquityPricing_close a) (rev (seq 0 n)) in
  let present l := filter (fun x => negb (isnan x)) l in
  let mean l := div (fold_left add l zero) (of_nat (List.length l)) in
  value mean_close_200 m a = mean (present (closes 200%nat)) /\
  value mean_close_50 m a = mean (present (closes 50%nat)) /\
  value mean_average_multiplier m a
  = div (mean (present (closes 200%nat))) (mean (present (closes 50%nat))) /\
  ((forall k, (k < 200)%nat -> isnan (history m USEquityPricing_close a k) = false) ->
   value mean_average_multiplier m a
   = div (div (fold_left add (closes 200%nat) zero) (of_Z 200))
         (div (fold_left add (closes 50%nat) zero) (of_Z 50))).
Proof.
  intros Hu closes present mean.
  assert (Hsma : forall n,
             value (SimpleMovingAverage USEquityPricing_close n universe) m a
             = mean (present (closes n))).
  { intros n. unfold SimpleMovingAverage. cbn [value]. rewrite Hu.
    unfold mean, present, closes, nanmean, sum, nonnan, window. reflexivity. }
  assert (E200 : value mean_close_200 m a = mean (present (closes 200%nat)))
    by apply Hsma.
  assert (E50 : value mean_close_50 m a = mean (present (closes 50%nat)))
    by apply Hsma.
  assert (E : value mean_average_multiplier m a
              = div (mean (present (closes 200%nat))) (mean (present (closes 50%nat)))).
  { change (value mean_average_multiplier m a)
      with (div (value mean_close_200 m a) (value mean_close_50 m a)).
    now rewrite E200, E50. }
  split; [exact E200|]. split; [exact E50|]. split; [exact E|].
  intros Hfull. rewrite E.
  assert (Hp : forall n, (n <= 200)%nat -> present (closes n) = closes n).
  { intros n Hn. apply nonnan_all. intros x Hx. unfold closes in Hx.
    apply in_map_iff in Hx. destruct Hx as (k & <- & Hk).
    apply in_rev, in_seq in Hk. apply Hfull. lia. }
  rewrite !Hp by lia. unfold mean, closes.
  rewrite !length_map, !length_rev, !length_seq. reflexivity.
Qed.

Lemma trend_ratio_is_sma200_over_sma50_witness :
  universe twenty_market "S01" = true /\
  (forall k, (k < 200)%nat ->
     isnan (history twenty_market USEquityPricing_close "S01" k) = false) /\
  history twenty_market USEquityPricing_close "S01" 0 = decimal 2 1 /\
  history twenty_market USEquityPricing_close "S01" 199 = decimal 3 1 /\
  value mean_close_200 twenty_market "S01" = S754_finite false 8070450532247935 (-54) /\
  value mean_close_50 twenty_market "S01" = S754_finite false 7962364141191035 (-54) /\
  value mean_average_multiplier twenty_market "S01"
  = S754_finite false 4564734463941141 (-52) /\
  value mean_average_multiplier twenty_market "S01"
  = div (div (fold_left add
                (map (history twenty_market USEquityPricing_close "S01") (rev (seq 0 200)))
                zero) (of_Z 200))
        (div (fold_left add
                (map (history twenty_market USEquityPricing_close "S01") (rev (seq 0 50)))
                zero) (of_Z 50)).
Proof.
  assert (H1 : universe twenty_market "S01" = true) by reflexivity.
  assert (H2 : forall k, (k < 200)%nat ->
                 isnan (history twenty_market USEquityPricing_close "S01" k) = false).
  { intros k _. cbn [history twenty_market twenty_history].
    apply decimal_tenths_is_number.
    change (number_in twenty_names "S01" 1) with 1.
    pose proof (tenths_range k). lia. }
  split; [exact H1|]. split; [exact H2|].
  split; [vm_compute; reflexivity|]. split; [vm_compute; reflexivity|].
  split; [vm_compute; reflexivity|]. split; [vm_compute; reflexivity|].
  split; [vm_compute; reflexivity|].
  exact (proj2 (proj2 (proj2
           (trend_ratio_is_sma200_over_sma50 twenty_market "S01" H1))) H2).
Defined.

(** On the example day the averages of A are 9.995 over 200 days and
    9.98 over 50 days, and its trend ratio is above 1. *)
Lemma trend_ratio_demo :
  value mean_close_200 demo_market "A" = decimal 9995 3 /\
  value mean_close_50 demo_market "A" = decimal 998 2 /\
  value mean_average_multiplier demo_market "A" = div (decimal 9995 3) (decimal 998 2) /\
  ltb (of_Z 1) (value mean_average_multiplier demo_market "A") = true.
Proof. repeat split; vm_compute; reflexivity. Qed.

(** ** The staged scores *)

(** C10. The pre-open hook stages the pipeline's scores with NaN replaced
    by 1.0 first and the two infinities replaced by 1.0 next: the staged
    mapping has the securities of the output in the same order, a score
    that is NaN or infinite is staged as 1.0 and any other score as it
    is; so every staged score is finite, and so is every alpha of the
    objective that [rebalance] builds from them. *)
Theorem staged_scores_are_finite (ctx : context) (m : market) :
  exists ctx' scores staged,
    before_trading_start the_algo ctx m = Some ctx' /\
    composite_scores ctx m = Some scores /\
    Context.total_score ctx' = Some staged /\
    staged = Series_replace (Series_fillna scores (of_Z 1)) [inf; opp inf] (of_Z 1) /\
    map fst staged = map fst scores /\
    (forall i a v, nth_error scores i = Some (a, v) ->
       nth_error staged i
       = Some (a, if isnan v then of_Z 1 else if isinf v then of_Z 1 else v)) /\
    (forall a, In a (assets m) ->
       securities_to_trade recent_returns_zscore m a = true ->
       lookup a staged
       = Some (if isfinite (factor_product m a) then factor_product m a else of_Z 1)) /\
    (forall a v, In (a, v) staged -> isfinite v = true) /\
    exists alphas,
      option_map objective (rebalance ctx') = Some (MaximizeAlpha alphas) /\
      map fst alphas = map fst staged /\
      forall a v, In (a, v) alphas -> isfinite v = true.
Proof.
  rewrite before_trading_start_eq, composite_scores_eq.
  set (l := filter (securities_to_trade recent_returns_zscore m) (assets m)).
  do 3 eexists. split; [reflexivity|]. split; [reflexivity|].
  split; [reflexivity|]. split; [now rewrite replace_fillna, map_map|].
  split; [now rewrite !map_map|]. split; [|split; [|split]].
  - intros i a v Hi. rewrite nth_error_map in Hi |- *.
    destruct (nth_error l i) as [b|]; [|discriminate].
    cbn [option_map] in Hi |- *. injection Hi as <- <-.
    do 2 f_equal. now destruct (factor_product m b) as [[|]|[|]| |[|] p e].
  - intros a Hin Hs.
    assert (Hf : In a l) by (apply filter_In; now split).
    rewrite (lookup_map_key _ _ _ Hf).
    destruct (isfinite (factor_product m a)) eqn:E;
      [now rewrite coerced_of_finite|now rewrite coerced_not_finite].
  - intros a v Hin. apply in_map_iff in Hin.
    destruct Hin as (b & [= <- <-] & _). apply coerced_finite.
  - eexists. split; [reflexivity|]. unfold Series_neg. rewrite !map_map.
    split; [reflexivity|].
    intros a v Hin. apply in_map_iff in Hin. destruct Hin as (b & [= <- <-] & _).
    simpl. generalize (coerced_finite (factor_product m b)).
    now destruct (coerced (factor_product m b)).
Qed.

(** ** The optimization request *)

(** C5. Whatever scores are staged, the request carries exactly three
    constraints: gross exposure at most 1.0, every weight between -0.025
    and 0.025, and dollar neutrality. *)
Theorem rebalance_constraints (ctx : context) (staged : Series) :
  Context.total_score ctx = Some staged ->
  exists request,
    rebalance ctx = Some request /\
    constraints request
    = [MaxGrossExposure (of_Z 1);
       PositionConcentration_with_equal_bounds (opp (decimal 25 3)) (decimal 25 3);
       DollarNeutral] /\
    List.length (constraints request) = 3%nat.
Proof.
  intros Hs. unfold rebalance. rewrite Hs.
  eexists. split; [reflexivity|]. split; reflexivity.
Qed.

Lemma rebalance_constraints_witness :
  Context.total_score demo_context
  = Some [("A", of_Z 3); ("D", decimal (-15) 1)]%string /\
  exists request,
    rebalance demo_context = Some request /\
    constraints request
    = [MaxGrossExposure (of_Z 1);
       PositionConcentration_with_equal_bounds (opp (decimal 25 3)) (decimal 25 3);
       DollarNeutral] /\
    List.length (constraints request) = 3%nat.
Proof.
  split; [reflexivity|].
  apply (rebalance_constraints demo_context
           [("A", of_Z 3); ("D", decimal (-15) 1)]%string).
  reflexivity.
Defined.

(** C6. The objective is [MaximizeAlpha] of the staged scores with every
    score negated: same securities, in the same order, and the alpha of
    each is the negation of its staged score. *)
Theorem rebalance_objective_negates_scores (ctx : context) (staged : Series) :
  Context.total_score ctx = Some staged ->
  exists request alphas,
    rebalance ctx = Some request /\
    objective request = MaximizeAlpha alphas /\
    map fst alphas = map fst staged /\
    (forall a, lookup a alphas = option_map opp (lookup a staged)) /\
    (forall i a v, nth_error staged i = Some (a, v) ->
                   nth_error alphas i = Some (a, opp v)).
Proof.
  intros Hs. unfold rebalance. rewrite Hs.
  do 2 eexists. split; [reflexivity|]. split; [reflexivity|].
  unfold Series_neg. split; [|split].
  - rewrite map_map. reflexivity.
  - intros a. apply lookup_map_snd.
  - intros i a v Hi. rewrite nth_error_map, Hi. reflexivity.
Qed.

Lemma rebalance_objective_negates_scores_witness :
  Context.total_score demo_context
  = Some [("A", of_Z 3); ("D", decimal (-15) 1)]%string /\
  exists request alphas,
    rebalance demo_context = Some request /\
    objective request = MaximizeAlpha alphas /\
    map fst alphas = ["A"; "D"]%string /\
    (forall a, lookup a alphas
               = option_map opp (lookup a [("A", of_Z 3); ("D", decimal (-15) 1)]%string)) /\
    (forall i a v,
       nth_error [("A", of_Z 3); ("D", decimal (-15) 1)]%string i = Some (a, v) ->
       nth_error alphas i = Some (a, opp v)).
Proof.
  split; [reflexivity|].
  apply (rebalance_objective_negates_scores demo_context
           [("A", of_Z 3); ("D", decimal (-15) 1)]%string).
  reflexivity.
Defined.

(** ** Eligibility *)

(** Ranking the whole row with NaN outside the mask, as the filter does,
    is ranking the factor over the members of the mask. *)
Lemma nonnan_masked (f : Factor) (msk : Filter) (m : market) (l : list asset) :
  nonnan (map (masked f msk m) l) = nonnan (map (value f m) (filter (msk m) l)).
Proof.
  unfold nonnan, masked. induction l as [|x l IH]; simpl; [reflexivity|].
  destruct (msk m x); simpl.
  - destruct (isnan (value f m x)); simpl; now rewrite IH.
  - assumption.
Qed.

Lemma nanpercentile_ext (r1 r2 : list float) (q : float) :
  nonnan r1 = nonnan r2 -> nanpercentile r1 q = nanpercentile r2 q.
Proof. intros H. unfold nanpercentile. now rewrite H. Qed.

Lemma percentile_between_in_band (z : Factor) (lo hi : Z) (m : market) (a : asset) :
  universe m a = true ->
  percentile_between z (of_Z lo) (of_Z hi) universe m a = true
  <-> in_band lo hi (universe_zscores z m) (value z m a).
Proof.
  intros Hu. unfold percentile_between, in_band, universe_zscores.
  rewrite (nanpercentile_ext _ _ (of_Z lo) (nonnan_masked z universe m (assets m))).
  rewrite (nanpercentile_ext _ _ (of_Z hi) (nonnan_masked z universe m (assets m))).
  unfold masked at 1 2. rewrite Hu. apply andb_true_iff.
Qed.

Lemma securities_to_trade_eligible (z : Factor) (m : market) (a : asset) :
  In a (assets m) /\ securities_to_trade z m a = true <-> eligible z m a.
Proof.
  unfold eligible, securities_to_trade, Filter_and, Filter_or, low_returns, high_returns.
  rewrite andb_true_iff, orb_true_iff.
  split.
  - intros (Hin & Hb & Hu). split; [assumption|]. split; [assumption|].
    now rewrite <- !(percentile_between_in_band z _ _ m a Hu).
  - intros (Hin & Hu & Hb). split; [assumption|]. split; [|assumption].
    now rewrite !(percentile_between_in_band z _ _ m a Hu).
Qed.

(** ** The order of binary64 values *)

Lemma key_le_trans k1 k2 k3 : key_le k1 k2 -> key_le k2 k3 -> key_le k1 k3.
Proof. destruct k1 as [[? ?] ?], k2 as [[? ?] ?], k3 as [[? ?] ?]. unfold key_le. lia. Qed.

Lemma key_le_total k1 k2 : key_le k1 k2 \/ key_le k2 k1.
Proof. destruct k1 as [[? ?] ?], k2 as [[? ?] ?]. unfold key_le. lia. Qed.

(** A comparison of two numbers against the order of their keys: by
    cases on the two values, and on the comparisons of the exponents and
    of the mantissas where both are finite of the same sign. *)
Ltac by_key x y :=
  destruct x as [[|]|[|]| |[|] ? ?], y as [[|]|[|]| |[|] ? ?];
  try discriminate; intros _ _;
  unfold leb, ltb, eqb, SFleb, SFltb, SFeqb, SFcompare, key, key_le;
  try change (Pos.compare_cont Eq ?p ?q) with (Pos.compare p q);
  repeat match goal with
         | |- context [Z.compare ?a ?b] => destruct (Z.compare_spec a b)
         | |- context [Pos.compare ?a ?b] => destruct (Pos.compare_spec a b)
         end;
  simpl; split; intros; try discriminate; try reflexivity; try lia.

Lemma leb_key (x y : float) :
  isnan x = false -> isnan y = false ->
  (leb x y = true <-> key_le (key x) (key y)).
Proof. by_key x y. Qed.

Lemma ltb_key (x y : float) :
  isnan x = false -> isnan y = false ->
  (ltb x y = false <-> key_le (key y) (key x)).
Proof. by_key x y. Qed.

Lemma eqb_key (x y : float) :
  isnan x = false -> isnan y = false ->
  (eqb x y = true <-> key_le (key x) (key y) /\ key_le (key y) (key x)).
Proof. by_key x y. Qed.

Lemma leb_nonnan (x y : float) : leb x y = true -> isnan x = false /\ isnan y = false.
Proof. destruct x, y; try discriminate; auto. Qed.

Lemma leb_total (x y : float) :
  isnan x = false -> isnan y = false -> leb x y = true \/ leb y x = true.
Proof.
  intros Hx Hy. rewrite (leb_key x y Hx Hy), (leb_key y x Hy Hx).
  apply key_le_total.
Qed.

Lemma leb_trans (x y z : float) : leb x y = true -> leb y z = true -> leb x z = true.
Proof.
  intros Hxy Hyz.
  destruct (leb_nonnan _ _ Hxy) as [Hx Hy]. destruct (leb_nonnan _ _ Hyz) as [_ Hz].
  rewrite leb_key in * by assumption. eapply key_le_trans; eassumption.
Qed.

Lemma ltb_false_leb (x y : float) :
  isnan x = false -> isnan y = false -> ltb x y = false <-> leb y x = true.
Proof.
  intros Hx Hy. now rewrite (leb_key y x Hy Hx), (ltb_key x y Hx Hy).
Qed.

Lemma eqb_leb (x y : float) : leb x y = true -> leb y x = true -> eqb x y = true.
Proof.
  intros Hxy Hyx. destruct (leb_nonnan _ _ Hxy) as [Hx Hy].
  apply eqb_key; try assumption. split; now apply leb_key.
Qed.

Lemma nan_last_leb_total (x y : float) :
  nan_last_leb x y = false -> nan_last_leb y x = true.
Proof.
  unfold nan_last_leb. intros H. apply orb_false_iff in H. destruct H as [Hy Hxy].
  destruct (isnan x) eqn:Hx; [reflexivity|]. simpl.
  destruct (leb_total x y Hx Hy); congruence.
Qed.

Lemma nan_last_leb_trans (x y z : float) :
  nan_last_leb x y = true -> nan_last_leb y z = true -> nan_last_leb x z = true.
Proof.
  unfold nan_last_leb. intros Hxy Hyz.
  destruct (isnan z) eqn:Hz; [reflexivity|]. simpl in *.
  destruct (leb_nonnan _ _ Hyz) as [Hy _]. rewrite Hy in Hxy. simpl in Hxy.
  eapply leb_trans; eassumption.
Qed.

(** ** Percentiles of ranked values *)

Lemma insert_perm (x : float) (l : list float) : Permutation (insert x l) (x :: l).
Proof.
  induction l as [|y l IH]; simpl; [reflexivity|].
  destruct (leb x y); [reflexivity|].
  rewrite IH. apply perm_swap.
Qed.

Lemma sort_perm (l : list float) : Permutation (sort l) l.
Proof.
  unfold sort. induction l as [|x l IH]; simpl; [constructor|].
  rewrite insert_perm. now constructor.
Qed.

Lemma insert_ascending (x : float) (l : list float) :
  isnan x = false -> Forall (fun y => isnan y = false) l ->
  ascending l -> ascending (insert x l).
Proof.
  unfold ascending. intros Hx Hl Hs.
  induction l as [|y l IH]; simpl.
  - constructor; constructor.
  - apply StronglySorted_inv in Hs. destruct Hs as [Hs Hy].
    apply Forall_cons_iff in Hl. destruct Hl as [Hyn Hl].
    destruct (leb x y) eqn:E.
    + constructor; [now constructor|].
      constructor; [exact E|].
      eapply Forall_impl; [|exact Hy]. intros z Hz. eapply leb_trans; eassumption.
    + constructor; [now apply IH|].
      eapply Permutation_Forall; [symmetry; apply insert_perm|].
      constructor; [|exact Hy].
      destruct (leb_total x y Hx Hyn); congruence.
Qed.

Lemma sort_ascending (l : list float) :
  Forall (fun y => isnan y = false) l -> ascending (sort l).
Proof.
  unfold sort. induction 1 as [|x l Hx Hl IH]; simpl; [constructor|].
  apply insert_ascending; [exact Hx| |exact IH].
  eapply Permutation_Forall; [symmetry; apply sort_perm|exact Hl].
Qed.

Lemma nonnan_are_numbers (l : list float) : Forall (fun y => isnan y = false) (nonnan l).
Proof.
  apply Forall_forall. intros x Hx. unfold nonnan in Hx.
  apply filter_In in Hx. now apply negb_true_iff.
Qed.

Lemma key_le_antisym (k1 k2 : Z * Z * Z) : key_le k1 k2 -> key_le k2 k1 -> k1 = k2.
Proof.
  destruct k1 as [[c1 e1] m1], k2 as [[c2 e2] m2]. unfold key_le. intros H1 H2.
  assert (c1 = c2 /\ e1 = e2 /\ m1 = m2) as (-> & -> & ->) by lia. reflexivity.
Qed.

(** Two ascending lists with the same entries have the same keys, rank by
    rank. *)
Lemma sorted_keys_unique (ks kt : list (Z * Z * Z)) :
  StronglySorted key_le ks -> StronglySorted key_le kt ->
  Permutation ks kt -> ks = kt.
Proof.
  intros Hs. revert kt. induction Hs as [|x ks Hs IH Hx]; intros kt Ht Hp.
  - now apply Permutation_nil in Hp.
  - destruct kt as [|y kt]; [now apply Permutation_sym, Permutation_nil in Hp|].
    apply StronglySorted_inv in Ht. destruct Ht as [Ht Hy].
    assert (E : x = y).
    { assert (Hxin : In x (y :: kt)) by (apply (Permutation_in _ Hp); now left).
      assert (Hyin : In y (x :: ks))
        by (apply (Permutation_in _ (Permutation_sym Hp)); now left).
      destruct Hxin as [->|Hxin]; [reflexivity|].
      destruct Hyin as [->|Hyin]; [reflexivity|].
      rewrite Forall_forall in Hx, Hy.
      apply key_le_antisym; [now apply Hx|now apply Hy]. }
    subst y. f_equal. apply IH; [exact Ht|].
    now apply Permutation_cons_inv in Hp.
Qed.

Lemma ascending_keys (s : list float) :
  ascending s -> StronglySorted key_le (map key s).
Proof.
  unfold ascending. induction 1 as [|x s Hs IH Hx]; simpl; constructor; [exact IH|].
  apply Forall_forall. intros k Hk. apply in_map_iff in Hk.
  destruct Hk as (y & <- & Hy). rewrite Forall_forall in Hx.
  specialize (Hx y Hy). destruct (leb_nonnan _ _ Hx). now apply leb_key.
Qed.

Lemma ascending_same_keys (s t : list float) :
  ascending s -> ascending t -> Permutation s t -> map key s = map key t.
Proof.
  intros Hs Ht Hp. apply sorted_keys_unique;
    [now apply ascending_keys|now apply ascending_keys|now apply Permutation_map].
Qed.

(** Values with the same key are the same value or two zeros. *)
Lemma key_eq_cases (x y : float) :
  key x = key y -> x = y \/ (iszero x = true /\ iszero y = true).
Proof.
  destruct x as [[|]|[|]| |[|] mx ex], y as [[|]|[|]| |[|] my ey];
    cbn [key iszero]; intros E; try discriminate E; auto;
    left; injection E as E1 E2; f_equal; lia.
Qed.

Lemma key_mul (x y w : float) : key x = key y -> key (mul x w) = key (mul y w).
Proof.
  intros E. destruct (key_eq_cases x y E) as [->|[Hx Hy]]; [reflexivity|].
  destruct x; try discriminate. destruct y; try discriminate.
  destruct w; reflexivity.
Qed.

Lemma key_add (x x' y y' : float) :
  key x = key x' -> key y = key y' -> key (add x y) = key (add x' y').
Proof.
  intros Ex Ey.
  destruct (key_eq_cases x x' Ex) as [->|[Hx Hx']];
    destruct (key_eq_cases y y' Ey) as [->|[Hy Hy']]; [reflexivity| | |].
  - destruct y as [sy| | |]; try discriminate. destruct y' as [sy'| | |]; try discriminate.
    destruct x' as [[|]|[|]| |[|] ? ?], sy, sy'; reflexivity.
  - destruct x as [sx| | |]; try discriminate. destruct x' as [sx'| | |]; try discriminate.
    destruct y' as [[|]|[|]| |[|] ? ?], sx, sx'; reflexivity.
  - destruct x as [sx| | |]; try discriminate. destruct x' as [sx'| | |]; try discriminate.
    destruct y as [sy| | |]; try discriminate. destruct y' as [sy'| | |]; try discriminate.
    destruct sx, sx', sy, sy'; reflexivity.
Qed.

Lemma key_leb (x x' y y' : float) :
  key x = key x' -> key y = key y' -> leb x y = leb x' y'.
Proof.
  intros Ex Ey.
  destruct (key_eq_cases x x' Ex) as [->|[Hx Hx']];
    destruct (key_eq_cases y y' Ey) as [->|[Hy Hy']]; [reflexivity| | |].
  - destruct y as [sy| | |]; try discriminate. destruct y' as [sy'| | |]; try discriminate.
    destruct x' as [[|]|[|]| |[|] ? ?]; reflexivity.
  - destruct x as [sx| | |]; try discriminate. destruct x' as [sx'| | |]; try discriminate.
    destruct y' as [[|]|[|]| |[|] ? ?]; reflexivity.
  - destruct x as [sx| | |]; try discriminate. destruct x' as [sx'| | |]; try discriminate.
    destruct y as [sy| | |]; try discriminate. destruct y' as [sy'| | |]; try discriminate.
    reflexivity.
Qed.

(** The percentile does not depend, but for the sign of a zero, on which
    ascending arrangement of the values it is taken from. *)
Lemma percentile_of_sorted_key (s t : list float) (q : float) :
  map key s = map key t ->
  key (percentile_of_sorted s q) = key (percentile_of_sorted t q).
Proof.
  intros E.
  assert (Hlen : List.length s = List.length t).
  { rewrite <- (length_map key s), <- (length_map key t). now rewrite E. }
  assert (Hnth : forall i, key (nth i s nan) = key (nth i t nan)).
  { intros i. rewrite <- !(map_nth key). now rewrite E. }
  unfold percentile_of_sorted. rewrite <- Hlen.
  destruct (List.length s); [reflexivity|].
  cbv zeta. apply key_add; apply key_mul; apply Hnth.
Qed.

Lemma nanpercentile_sorted (row : list float) (q : float) :
  nanpercentile row q = percentile_of_sorted (sort (nonnan row)) q.
Proof. reflexivity. Qed.

(** The percentile the filter computes is the percentile of any ascending
    arrangement of the numbers of the row. *)
Lemma nanpercentile_of_any_sorted (row s : list float) (q : float) :
  Permutation s (nonnan row) -> ascending s ->
  key (nanpercentile row q) = key (percentile_of_sorted s q).
Proof.
  intros Hp Hs. rewrite nanpercentile_sorted.
  apply percentile_of_sorted_key. apply ascending_same_keys.
  - apply sort_ascending, nonnan_are_numbers.
  - exact Hs.
  - rewrite sort_perm. now symmetry.
Qed.

Lemma in_band_of_any_sorted (lo hi : Z) (dist s : list float) (x : float) :
  Permutation s (nonnan dist) -> ascending s ->
  in_band lo hi dist x
  <-> leb (percentile_of_sorted s (of_Z lo)) x = true /\
      leb x (percentile_of_sorted s (of_Z hi)) = true.
Proof.
  intros Hp Hs. unfold in_band.
  rewrite (key_leb (nanpercentile dist (of_Z lo)) (percentile_of_sorted s (of_Z lo)) x x
             (nanpercentile_of_any_sorted dist s _ Hp Hs) eq_refl).
  rewrite (key_leb x x (nanpercentile dist (of_Z hi)) (percentile_of_sorted s (of_Z hi))
             eq_refl (nanpercentile_of_any_sorted dist s _ Hp Hs)).
  reflexivity.
Qed.

(** C2. The securities of the pipeline's output are exactly the members
    of the universe whose return z-score lies, bounds included, between
    the percentiles 0 and 25 or between the percentiles 75 and 100 of the
    z-scores of the universe, and the staged mapping has the same
    securities.  The percentiles are those of the z-scores of the universe
    in ascending order, by linear interpolation between the nearest ranks,
    whichever ascending arrangement [s] of them is taken.  With the
    z-scores -2.0, -0.5, 0.5 and 2.0 for A, B, C and D the output holds A
    and D and nothing else; with 0.5, 2.0, -2.0 and -0.5 the percentiles
    0, 25, 75 and 100 are -2.0, -0.875, 0.875 and 2.0, and the output holds
    B and C. *)
Theorem eligibility_is_the_two_quartile_bands :
  (forall (ctx : context) (m : market),
     exists scores staged,
       composite_scores ctx m = Some scores /\
       (forall a, In a (map fst scores) <-> eligible recent_returns_zscore m a) /\
       (forall a, ~ eligible recent_returns_zscore m a -> lookup a scores = None) /\
       staged_scores ctx m = Some staged /\
       map fst staged = map fst scores) /\
  (forall (ctx : context) (m : market),
     composite_scores ctx m
     = lookup "total_score" (run_pipeline (pipe recent_returns_zscore) m)) /\
  (forall (z : Factor) (m : market) (s : list float),
     Permutation s
       (filter (fun x => negb (isnan x))
          (map (value z m) (filter (universe m) (assets m)))) ->
     StronglySorted (fun x y => leb x y = true) s ->
     exists scores,
       lookup "total_score" (run_pipeline (pipe z) m) = Some scores /\
       forall a,
         In a (map fst scores)
         <-> In a (assets m) /\ universe m a = true /\
             ((leb (percentile_of_sorted s (of_Z 0)) (value z m a) = true /\
               leb (value z m a) (percentile_of_sorted s (of_Z 25)) = true) \/
              (leb (percentile_of_sorted s (of_Z 75)) (value z m a) = true /\
               leb (value z m a) (percentile_of_sorted s (of_Z 100)) = true))) /\
  (forall h : BoundColumn -> asset -> nat -> float,
     map (value scenario_zscores (scenario_market h)) (assets (scenario_market h))
     = [of_Z (-2); decimal (-5) 1; decimal 5 1; of_Z 2] /\
     exists scores,
       lookup "total_score" (run_pipeline (pipe scenario_zscores) (scenario_market h))
       = Some scores /\
       map fst scores = ["A"; "D"]%string) /\
  (forall h : BoundColumn -> asset -> nat -> float,
     let day := scenario_market h in
     let ranked := [of_Z (-2); decimal (-5) 1; decimal 5 1; of_Z 2] in
     map (value unsorted_zscores day) (assets day)
     = [decimal 5 1; of_Z 2; of_Z (-2); decimal (-5) 1] /\
     Permutation ranked
       (filter (fun x => negb (isnan x))
          (map (value unsorted_zscores day) (filter (universe day) (assets day)))) /\
     StronglySorted (fun x y => leb x y = true) ranked /\
     map (percentile_of_sorted ranked) [of_Z 0; of_Z 25; of_Z 75; of_Z 100]
     = [of_Z (-2); decimal (-875) 3; decimal 875 3; of_Z 2] /\
     map (nanpercentile (universe_zscores unsorted_zscores day))
         [of_Z 0; of_Z 25; of_Z 75; of_Z 100]
     = [of_Z (-2); decimal (-875) 3; decimal 875 3; of_Z 2] /\
     map (low_returns unsorted_zscores day) (assets day) = [false; false; true; false] /\
     map (high_returns unsorted_zscores day) (assets day) = [false; true; false; false] /\
     exists scores,
       lookup "total_score" (run_pipeline (pipe unsorted_zscores) day) = Some scores /\
       map fst scores = ["B"; "C"]%string).
Proof.
  split; [|split; [|split; [|split]]].
  - intros ctx m. rewrite composite_scores_eq, staged_scores_eq.
    do 2 eexists. split; [reflexivity|]. split; [|split; [|split; [reflexivity|]]].
    + intros a. rewrite map_map. simpl. rewrite map_id.
      rewrite filter_In. apply securities_to_trade_eligible.
    + intros a Hn. apply lookup_map_key_none.
      rewrite filter_In. now rewrite securities_to_trade_eligible.
    + now rewrite !map_map.
  - reflexivity.
  - intros z m s Hp Hs. rewrite run_pipe_column.
    eexists. split; [reflexivity|].
    intros a. rewrite map_map. cbn [fst]. rewrite map_id.
    rewrite filter_In, securities_to_trade_eligible. unfold eligible.
    rewrite (in_band_of_any_sorted 0 25 _ s _ Hp Hs).
    rewrite (in_band_of_any_sorted 75 100 _ s _ Hp Hs).
    reflexivity.
  - intros h. split; [vm_compute; reflexivity|].
    rewrite run_pipe_column. eexists. split; [reflexivity|].
    rewrite map_map. cbn [fst]. rewrite map_id.
    vm_compute. reflexivity.
  - intros h day ranked. subst day ranked.
    split; [vm_compute; reflexivity|].
    split.
    { change (filter (fun x => negb (isnan x))
                (map (value unsorted_zscores (scenario_market h))
                   (filter (universe (scenario_market h)) (assets (scenario_market h)))))
        with (([decimal 5 1; of_Z 2] ++ [of_Z (-2); decimal (-5) 1])%list).
      apply (Permutation_app_comm [of_Z (-2); decimal (-5) 1] [decimal 5 1; of_Z 2]). }
    split; [repeat constructor|].
    split; [vm_compute; reflexivity|].
    split; [vm_compute; reflexivity|].
    split; [vm_compute; reflexivity|].
    split; [vm_compute; reflexivity|].
    rewrite run_pipe_column. eexists. split; [reflexivity|].
    rewrite map_map. cbn [fst]. rewrite map_id.
    vm_compute. reflexivity.
Qed.

(** ** Sorting positions, ranks and assignment *)

Section Positions.

Local Open Scope nat_scope.

Section Argsort.

Variable row : list float.

Lemma insert_index_perm (i : nat) (l : list nat) :
  Permutation (insert_index row i l) (i :: l).
Proof.
  induction l as [|j l IH]; simpl; [constructor; constructor|].
  destruct (nan_last_leb _ _); [reflexivity|].
  rewrite IH. apply perm_swap.
Qed.

Lemma insert_index_sorted (i : nat) (l : list nat) :
  StronglySorted (before row) l -> StronglySorted (before row) (insert_index row i l).
Proof.
  induction l as [|j l IH]; simpl; intros Hs.
  - constructor; constructor.
  - apply StronglySorted_inv in Hs. destruct Hs as [Hs Hj].
    destruct (nan_last_leb (nth i row nan) (nth j row nan)) eqn:E.
    + constructor; [constructor; assumption|].
      constructor; [exact E|].
      eapply Forall_impl; [|exact Hj]. intros k Hk.
      unfold before in *. eapply nan_last_leb_trans; eassumption.
    + constructor; [auto|].
      eapply Permutation_Forall; [symmetry; apply insert_index_perm|].
      constructor; [|assumption]. now apply nan_last_leb_total.
Qed.

Lemma sort_indices_perm (l : list nat) :
  Permutation (fold_right (insert_index row) [] l) l.
Proof.
  induction l as [|i l IH]; simpl; [constructor|].
  rewrite insert_index_perm. now constructor.
Qed.

Lemma sort_indices_sorted (l : list nat) :
  StronglySorted (before row) (fold_right (insert_index row) [] l).
Proof.
  induction l as [|i l IH]; simpl; [constructor|].
  now apply insert_index_sorted.
Qed.

Lemma argsort_perm : Permutation (argsort row) (seq 0 (List.length row)).
Proof. apply sort_indices_perm. Qed.

Lemma argsort_sorted : StronglySorted (before row) (argsort row).
Proof. apply sort_indices_sorted. Qed.

Lemma argsort_length : List.length (argsort row) = List.length row.
Proof. rewrite (Permutation_length argsort_perm). apply length_seq. Qed.

Lemma argsort_NoDup : NoDup (argsort row).
Proof.
  eapply Permutation_NoDup; [symmetry; apply argsort_perm|]. apply seq_NoDup.
Qed.

Lemma argsort_range (k : nat) :
  k < List.length row -> nth k (argsort row) 0 < List.length row.
Proof.
  intros Hk.
  assert (Hin : In (nth k (argsort row) 0) (argsort row))
    by (apply nth_In; now rewrite argsort_length).
  apply (Permutation_in _ argsort_perm) in Hin. apply in_seq in Hin. lia.
Qed.

Lemma argsort_rank (p : nat) :
  p < List.length row -> exists k, k < List.length row /\ nth k (argsort row) 0 = p.
Proof.
  intros Hp.
  assert (Hin : In p (argsort row)).
  { apply (Permutation_in _ (Permutation_sym argsort_perm)). apply in_seq. lia. }
  destruct (In_nth _ _ 0 Hin) as (k & Hk & E).
  exists k. rewrite argsort_length in Hk. now split.
Qed.

End Argsort.

Lemma leb_refl (x : float) : isnan x = false -> leb x x = true.
Proof. intros H. destruct (leb_total x x H H); assumption. Qed.

Lemma isnan_eq (x : float) : isnan x = true -> x = nan.
Proof. destruct x; try discriminate; reflexivity. Qed.

Lemma StronglySorted_nth {A : Type} (R : A -> A -> Prop) (l : list A) (d : A) :
  StronglySorted R l ->
  forall i j, i < j -> j < List.length l -> R (nth i l d) (nth j l d).
Proof.
  induction 1 as [|x l Hs IH Hx]; intros i j Hij Hj; simpl in Hj; [lia|].
  destruct j as [|j]; [lia|]. destruct i as [|i]; simpl.
  - rewrite Forall_forall in Hx. apply Hx. apply nth_In. lia.
  - apply IH; lia.
Qed.

Lemma map_nth_seq {A : Type} (l : list A) (d : A) :
  map (fun i => nth i l d) (seq 0 (List.length l)) = l.
Proof.
  induction l as [|x l IH]; simpl; [reflexivity|].
  f_equal. rewrite <- seq_shift, map_map. exact IH.
Qed.

Lemma filter_length_perm {A : Type} (f : A -> bool) (l l' : list A) :
  Permutation l l' -> List.length (filter f l) = List.length (filter f l').
Proof.
  induction 1 as [|x l l' _ IH|x y l|l l' l'' _ IH1 _ IH2]; simpl.
  - reflexivity.
  - destruct (f x); simpl; now rewrite IH.
  - destruct (f x), (f y); reflexivity.
  - now rewrite IH1.
Qed.

Lemma filter_negb_length {A : Type} (f : A -> bool) (l : list A) :
  List.length (filter (fun x => negb (f x)) l) = List.length l - List.length (filter f l).
Proof.
  assert (H : List.length (filter (fun x => negb (f x)) l) + List.length (filter f l)
              = List.length l).
  { induction l as [|x l IH]; simpl; [reflexivity|].
    destruct (f x); simpl; lia. }
  lia.
Qed.

Lemma filter_map_length {A B : Type} (f : B -> bool) (g : A -> B) (l : list A) :
  List.length (filter f (map g l)) = List.length (filter (fun x => f (g x)) l).
Proof.
  induction l as [|x l IH]; simpl; [reflexivity|].
  destruct (f (g x)); simpl; now rewrite IH.
Qed.

Section Ranks.

Variable row : list float.

Lemma nan_suffix (l : list nat) :
  StronglySorted (before row) l ->
  forall k, k < List.length l ->
    (isnan (nth (nth k l 0) row nan) = false
     <-> k < List.length (filter (fun i => negb (isnan (nth i row nan))) l)).
Proof.
  induction 1 as [|j l Hs IH Hj]; intros k Hk; simpl in Hk; [lia|].
  simpl filter. destruct (isnan (nth j row nan)) eqn:Ej; simpl negb; cbv iota.
  - assert (Hall : forall i, In i l -> isnan (nth i row nan) = true).
    { intros i Hi. rewrite Forall_forall in Hj. specialize (Hj i Hi).
      unfold before, nan_last_leb in Hj. apply isnan_eq in Ej. rewrite Ej in Hj.
      now destruct (isnan (nth i row nan)). }
    assert (Hnil : filter (fun i => negb (isnan (nth i row nan))) l = []).
    { clear -Hall. induction l as [|i l IH]; simpl; [reflexivity|].
      rewrite (Hall i (or_introl eq_refl)). simpl. apply IH.
      intros i' Hi'. apply Hall. now right. }
    rewrite Hnil. simpl. split; [|lia].
    destruct k as [|k]; simpl; [congruence|].
    rewrite Hall; [discriminate|]. apply nth_In. lia.
  - simpl. destruct k as [|k]; simpl.
    + split; [lia|auto].
    + rewrite IH by lia. lia.
Qed.

Lemma count_nonnan_indices :
  List.length (filter (fun i => negb (isnan (nth i row nan))) (argsort row))
  = count_nonnan row.
Proof.
  unfold count_nonnan. rewrite <- filter_negb_length.
  rewrite (filter_length_perm _ _ _ (argsort_perm row)).
  rewrite <- (filter_map_length (fun x => negb (isnan x)) (fun i => nth i row nan)).
  now rewrite map_nth_seq.
Qed.

(** The ranks below the count of numbers hold the numbers, the others
    hold the NaN. *)
Lemma rank_value_nonnan (k : nat) :
  k < List.length row ->
  (isnan (rank_value row k) = false <-> k < count_nonnan row).
Proof.
  intros Hk. unfold rank_value. rewrite <- count_nonnan_indices.
  apply nan_suffix; [apply argsort_sorted|]. now rewrite argsort_length.
Qed.

Lemma count_nonnan_le : count_nonnan row <= List.length row.
Proof. unfold count_nonnan. lia. Qed.

Lemma rank_value_le (i j : nat) :
  i <= j -> j < count_nonnan row ->
  leb (rank_value row i) (rank_value row j) = true.
Proof.
  intros Hij Hj. pose proof count_nonnan_le as Hn.
  assert (Hnj : isnan (rank_value row j) = false)
    by (apply rank_value_nonnan; lia).
  destruct (Nat.eq_dec i j) as [->|Hne]; [now apply leb_refl|].
  assert (H : before row (nth i (argsort row) 0) (nth j (argsort row) 0)).
  { apply StronglySorted_nth; [apply argsort_sorted|lia|].
    rewrite argsort_length. lia. }
  unfold before, nan_last_leb in H. fold (rank_value row i) in H.
  fold (rank_value row j) in H. now rewrite Hnj in H.
Qed.

End Ranks.

(** Assignment by position *)

Lemma set_nth_length (i : nat) (v : float) (l : list float) :
  List.length (set_nth i v l) = List.length l.
Proof.
  revert i. induction l as [|x l IH]; intros [|i]; simpl; auto.
Qed.

Lemma nth_set_nth_same (i : nat) (v : float) (l : list float) (d : float) :
  i < List.length l -> nth i (set_nth i v l) d = v.
Proof.
  revert i. induction l as [|x l IH]; intros [|i] Hi; simpl in *; try lia; auto.
  apply IH. lia.
Qed.

Lemma nth_set_nth_other (i p : nat) (v : float) (l : list float) (d : float) :
  p <> i -> nth p (set_nth i v l) d = nth p l d.
Proof.
  revert i p. induction l as [|x l IH]; intros [|i] [|p] Hp; simpl; auto; try lia.
Qed.

Lemma assign_length (a : list float) (ps : list nat) (v : float) :
  List.length (assign a ps v) = List.length a.
Proof.
  unfold assign. revert a. induction ps as [|i ps IH]; intros a; simpl; [reflexivity|].
  now rewrite IH, set_nth_length.
Qed.

Lemma nth_assign_other (a : list float) (ps : list nat) (v : float) (p : nat) (d : float) :
  ~ In p ps -> nth p (assign a ps v) d = nth p a d.
Proof.
  unfold assign. revert a. induction ps as [|i ps IH]; intros a Hn; simpl; [reflexivity|].
  rewrite IH by (simpl in Hn; tauto).
  apply nth_set_nth_other. simpl in Hn. intros ->. tauto.
Qed.

Lemma nth_assign_same (a : list float) (ps : list nat) (v : float) (p : nat) (d : float) :
  In p ps -> p < List.length a -> nth p (assign a ps v) d = v.
Proof.
  unfold assign. revert a. induction ps as [|i ps IH]; intros a Hin Hp; simpl; [easy|].
  destruct (in_dec Nat.eq_dec p ps) as [Hps|Hps].
  - apply IH; [assumption|]. now rewrite set_nth_length.
  - destruct Hin as [->|Hin]; [|contradiction].
    fold (assign (set_nth p v a) ps v). rewrite nth_assign_other by assumption.
    now apply nth_set_nth_same.
Qed.

Lemma In_slice_nth {A : Type} (l : list A) (lo hi k : nat) (d : A) :
  NoDup l -> k < List.length l ->
  (In (nth k l d) (slice l lo hi) <-> lo <= k < hi).
Proof.
  intros Hnd Hk. unfold slice. split.
  - intros Hin. destruct (In_nth _ _ d Hin) as (i & Hi & E).
    rewrite length_firstn, length_skipn in Hi.
    rewrite nth_firstn in E.
    destruct (i <? hi - lo) eqn:Ei; [|apply Nat.ltb_ge in Ei; lia].
    apply Nat.ltb_lt in Ei. rewrite nth_skipn in E.
    apply (proj1 (NoDup_nth l d) Hnd) in E; lia.
  - intros Hr.
    assert (E : nth (k - lo) (firstn (hi - lo) (skipn lo l)) d = nth k l d).
    { rewrite nth_firstn.
      replace (k - lo <? hi - lo) with true by (symmetry; apply Nat.ltb_lt; lia).
      rewrite nth_skipn. f_equal. lia. }
    rewrite <- E. apply nth_In. rewrite length_firstn, length_skipn. lia.
Qed.


Lemma In_firstn_nth {A : Type} (l : list A) (c k : nat) (d : A) :
  NoDup l -> k < List.length l ->
  (In (nth k l d) (firstn c l) <-> k < c).
Proof.
  intros Hnd Hk.
  assert (E : firstn c l = slice l 0 c).
  { unfold slice. now rewrite Nat.sub_0_r. }
  rewrite E, In_slice_nth by assumption. lia.
Qed.

(** Settles a comparison of natural numbers that the context decides. *)
Ltac settle t b :=
  replace t with b
    by (symmetry;
        first [apply Nat.ltb_lt | apply Nat.ltb_ge | apply Nat.leb_le | apply Nat.leb_gt];
        lia).

Section Winsorize.

Variables pmin pmax : float.
Hypothesis pmin_positive : ltb zero pmin = true.
Hypothesis pmax_below_one : ltb pmax one = true.

Variable row : list float.

Let n := count_nonnan row.
Let lc := lower_rank pmin n.
Let uc := upper_rank pmax n.
Let idx := argsort row.
Let a1 := assign row (firstn lc idx) (rank_value row lc).

Lemma winsorize_row_unfold :
  winsorize_row pmin pmax row
  = if uc <? n then assign a1 (slice idx uc n) (nth (nth (uc - 1) idx 0) a1 nan)
    else a1.
Proof.
  unfold winsorize_row. rewrite pmin_positive, pmax_below_one. reflexivity.
Qed.

Lemma winsorize_row_length :
  List.length (winsorize_row pmin pmax row) = List.length row.
Proof.
  rewrite winsorize_row_unfold. destruct (uc <? n).
  - unfold a1. now rewrite !assign_length.
  - unfold a1. now rewrite assign_length.
Qed.

Lemma lower_assignment (j : nat) :
  j < List.length row ->
  nth (nth j idx 0) a1 nan = if j <? lc then rank_value row lc else rank_value row j.
Proof.
  intros Hj. unfold a1.
  assert (Hj' : j < List.length idx) by (unfold idx; now rewrite argsort_length).
  pose proof (In_firstn_nth idx lc j 0 (argsort_NoDup row) Hj') as Hin.
  destruct (j <? lc) eqn:E.
  - apply Nat.ltb_lt in E. apply nth_assign_same; [now apply Hin|].
    now apply argsort_range.
  - apply Nat.ltb_ge in E. rewrite nth_assign_other; [reflexivity|].
    rewrite Hin. lia.
Qed.

Lemma upper_assignment (j : nat) :
  j < List.length row ->
  nth (nth j idx 0) (winsorize_row pmin pmax row) nan
  = if (uc <=? j) && (j <? n) then nth (nth (uc - 1) idx 0) a1 nan
    else nth (nth j idx 0) a1 nan.
Proof.
  intros Hj. rewrite winsorize_row_unfold.
  assert (Hj' : j < List.length idx) by (unfold idx; now rewrite argsort_length).
  pose proof (In_slice_nth idx uc n j 0 (argsort_NoDup row) Hj') as Hin.
  destruct (uc <? n) eqn:Eu.
  - destruct ((uc <=? j) && (j <? n)) eqn:E.
    + apply andb_true_iff in E. destruct E as [E1 E2].
      apply Nat.leb_le in E1. apply Nat.ltb_lt in E2.
      apply nth_assign_same; [apply Hin; lia|].
      unfold a1. rewrite assign_length. now apply argsort_range.
    + rewrite nth_assign_other; [reflexivity|].
      rewrite Hin. apply andb_false_iff in E.
      destruct E as [E|E]; [apply Nat.leb_gt in E|apply Nat.ltb_ge in E]; lia.
  - apply Nat.ltb_ge in Eu.
    replace ((uc <=? j) && (j <? n)) with false; [reflexivity|].
    symmetry. apply andb_false_iff.
    destruct (uc <=? j) eqn:E; [right|now left].
    apply Nat.leb_le in E. apply Nat.ltb_ge. lia.
Qed.

Lemma all_nan_when_none_counts (q : nat) : n = 0 -> nth q row nan = nan.
Proof.
  intros Hn. destruct (Nat.lt_ge_cases q (List.length row)) as [Hq|Hq].
  - destruct (argsort_rank row q Hq) as (k & Hk & E).
    apply isnan_eq. destruct (isnan (nth q row nan)) eqn:Hx; [reflexivity|].
    rewrite <- E in Hx. apply (rank_value_nonnan row k Hk) in Hx.
    fold n in Hx. lia.
  - now apply nth_overflow.
Qed.

(** A NaN entry stays; an entry that is a number becomes, up to the
    equality of binary64, that number clipped between the values of rank
    [lc] and of rank [min uc n - 1]. *)
Lemma winsorize_row_clips (p : nat) :
  ranks_in_order pmin pmax n = true ->
  p < List.length row ->
  (isnan (nth p row nan) = true ->
   nth p (winsorize_row pmin pmax row) nan = nth p row nan) /\
  (isnan (nth p row nan) = false ->
   eqb (nth p (winsorize_row pmin pmax row) nan)
       (clip (rank_value row lc) (rank_value row (Nat.min uc n - 1)) (nth p row nan))
   = true).
Proof.
  intros Hord Hp.
  destruct (argsort_rank row p Hp) as (k & Hk & Ek).
  fold idx in Ek. rewrite <- Ek.
  rewrite (upper_assignment k Hk), (lower_assignment k Hk).
  change (nth (nth k idx 0) row nan) with (rank_value row k).
  pose proof (rank_value_nonnan row k Hk) as Hnan. fold n in Hnan.
  pose proof (count_nonnan_le row) as Hn. fold n in Hn.
  unfold ranks_in_order in Hord. fold lc uc in Hord.
  apply orb_true_iff in Hord.
  split; intros Hx.
  - (* a NaN keeps its place *)
    assert (Hkn : ~ k < n) by (rewrite <- Hnan; congruence).
    settle (k <? n) false.
    rewrite andb_false_r.
    destruct Hord as [H0|Hlt].
    + apply Nat.eqb_eq in H0. unfold rank_value.
      rewrite !(all_nan_when_none_counts _ H0). now destruct (k <? lc).
    + apply Nat.ltb_lt in Hlt.
      settle (k <? lc) false.
      reflexivity.
  - (* a number is clipped *)
    assert (Hkn : k < n) by now apply Hnan.
    destruct Hord as [H0|Hlt]; [apply Nat.eqb_eq in H0; lia|].
    apply Nat.ltb_lt in Hlt.
    set (lo := rank_value row lc). set (hi := rank_value row (Nat.min uc n - 1)).
    set (x := rank_value row k) in *.
    assert (Hxn : isnan x = false) by exact Hx.
    assert (Hlohi : leb lo hi = true) by (apply rank_value_le; fold n; lia).
    destruct (leb_nonnan _ _ Hlohi) as [Hlo Hhi].
    unfold clip.
    destruct (Nat.lt_ge_cases k lc) as [Hk1|Hk1].
    + (* below the lower rank *)
      settle (uc <=? k) false.
      settle (k <? lc) true.
      simpl andb. cbv iota. fold lo.
      assert (Hxlo : leb x lo = true) by (apply rank_value_le; fold n; lia).
      destruct (ltb x lo) eqn:E1; [apply eqb_leb; now apply leb_refl|].
      apply ltb_false_leb in E1; try assumption.
      replace (ltb hi x) with false
        by (symmetry; apply ltb_false_leb; try assumption;
            eapply leb_trans; eassumption).
      now apply eqb_leb.
    + settle (k <? lc) false.
      assert (Hlox : leb lo x = true) by (apply rank_value_le; fold n; lia).
      replace (ltb x lo) with false by (symmetry; now apply ltb_false_leb).
      destruct (Nat.lt_ge_cases k (Nat.min uc n)) as [Hk2|Hk2].
      * (* between the two ranks *)
        settle (uc <=? k) false.
        simpl andb. cbv iota.
        assert (Hxhi : leb x hi = true) by (apply rank_value_le; fold n; lia).
        replace (ltb hi x) with false by (symmetry; now apply ltb_false_leb).
        apply eqb_leb; now apply leb_refl.
      * (* from the upper rank on *)
        assert (Huc : uc <= k /\ uc < n /\ Nat.min uc n = uc) by lia.
        destruct Huc as (Hu1 & Hu2 & Hmin).
        settle (uc <=? k) true.
        settle (k <? n) true.
        simpl andb. cbv iota.
        rewrite lower_assignment by lia.
        settle (uc - 1 <? lc) false.
        unfold hi in *. rewrite Hmin in *. fold hi in Hlohi, Hhi |- *.
        assert (Hhix : leb (rank_value row (uc - 1)) x = true)
          by (apply rank_value_le; fold n; lia).
        destruct (ltb (rank_value row (uc - 1)) x) eqn:E2.
        -- apply eqb_leb; now apply leb_refl.
        -- apply ltb_false_leb in E2; try assumption. now apply eqb_leb.
Qed.

End Winsorize.

End Positions.

(** ** Winsorization of a factor *)

Lemma all_from_spec (f : Z -> bool) (c : nat) :
  forall z, all_from f z c = true ->
  forall k, (k < c)%nat -> f (z + Z.of_nat k) = true.
Proof.
  induction c as [|c IH]; intros z H k Hk; [lia|].
  simpl in H. destruct (f z) eqn:E; [|discriminate].
  destruct k as [|k].
  - now rewrite Z.add_0_r.
  - replace (z + Z.of_nat (S k)) with (z + 1 + Z.of_nat k) by lia.
    apply IH; [assumption|lia].
Qed.

Lemma ranks_checked :
  all_from (ranks_in_order_Z (decimal 1 2) (decimal 95 2)) 1 checked_universe_size = true.
Proof. vm_compute. reflexivity. Qed.

(** For the percentiles of the script the cut-off ranks are in order for
    every universe of a checked size. *)
Lemma ranks_in_order_checked (n : nat) :
  (n <= checked_universe_size)%nat ->
  ranks_in_order (decimal 1 2) (decimal 95 2) n = true.
Proof.
  intros Hn. destruct n as [|n]; [reflexivity|].
  assert (H := all_from_spec _ _ _ ranks_checked n Hn).
  replace (1 + Z.of_nat n) with (Z.of_nat (S n)) in H by lia.
  unfold ranks_in_order_Z in H. apply Z.ltb_lt in H.
  unfold ranks_in_order, lower_rank, upper_rank, of_nat.
  apply orb_true_iff. right. apply Nat.ltb_lt. lia.
Qed.

Lemma lookup_combine_nth (cols : list asset) (out : list float) (a : asset) :
  List.length out = List.length cols -> In a cols ->
  exists i, (i < List.length cols)%nat /\ nth i cols a = a /\
            lookup a (combine cols out) = Some (nth i out nan).
Proof.
  revert out. induction cols as [|c cols IH]; intros out Hlen Hin; [easy|].
  destruct out as [|v out]; [discriminate|]. simpl in Hlen. simpl combine. simpl lookup.
  destruct (String.eqb_spec a c) as [->|Hne].
  - exists O. simpl. split; [lia|]. split; reflexivity.
  - destruct Hin as [->|Hin]; [congruence|].
    destruct (IH out (eq_add_S _ _ Hlen) Hin) as (i & Hi & Ei & El).
    exists (S i). simpl. split; [lia|]. now split.
Qed.

Section WinsorizedFactor.

Variable f : Factor.
Variables pmin pmax : float.
Variable msk : Filter.
Variable m : market.

Hypothesis pmin_positive : ltb zero pmin = true.
Hypothesis pmax_below_one : ltb pmax one = true.

Let row : list float :=
  map (value f m) (filter (Filter_and msk (mask f) m) (assets m)).

(** Inside the mask a missing value stays missing, and a number becomes,
    up to the equality of binary64, that number clipped between the two
    percentile values of the masked row. *)
Lemma winsorize_clips (a : asset) :
  ranks_in_order pmin pmax (count_nonnan row) = true ->
  In a (assets m) -> Filter_and msk (mask f) m a = true ->
  (isnan (value f m a) = true ->
   value (winsorize f pmin pmax msk) m a = value f m a) /\
  (isnan (value f m a) = false ->
   eqb (value (winsorize f pmin pmax msk) m a)
       (clip (low_percentile_value pmin row) (high_percentile_value pmax row)
             (value f m a)) = true).
Proof.
  intros Hord Hin Hmask.
  set (cols := filter (Filter_and msk (mask f) m) (assets m)).
  assert (Hval : value (winsorize f pmin pmax msk) m a
                 = match lookup a (combine cols (winsorize_row pmin pmax row)) with
                   | Some v => v
                   | None => nan
                   end).
  { unfold winsorize, GroupedRowTransform. cbn [value]. now rewrite Hmask. }
  rewrite Hval. clear Hval.
  assert (Hcols : In a cols) by (apply filter_In; now split).
  assert (Hlen : List.length (winsorize_row pmin pmax row) = List.length cols).
  { rewrite winsorize_row_length by assumption. apply length_map. }
  destruct (lookup_combine_nth cols _ a Hlen Hcols) as (i & Hi & Ei & El).
  rewrite El.
  assert (Hx : nth i row nan = value f m a).
  { unfold row. rewrite (nth_indep _ nan (value f m a)) by now rewrite length_map.
    rewrite map_nth. unfold cols in Ei. now rewrite Ei. }
  assert (Hi' : (i < List.length row)%nat) by (unfold row; now rewrite length_map).
  pose proof (winsorize_row_clips pmin pmax pmin_positive pmax_below_one row i Hord Hi')
    as [Hnan Hnum].
  rewrite Hx in Hnan, Hnum. split; assumption.
Qed.

End WinsorizedFactor.

Lemma universe_mask_rows (m : market) :
  filter (Filter_and universe (mask sentiment_score) m) (assets m)
  = filter (universe m) (assets m).
Proof. apply filter_ext. intros a. apply andb_true_r. Qed.

(** The winsorized sentiment ratio of a member of a universe of a checked
    size. *)
Lemma winsorized_sentiment (m : market) (a : asset) :
  In a (assets m) -> universe m a = true ->
  (List.length (filter (universe m) (assets m)) <= checked_universe_size)%nat ->
  (isnan (value sentiment_score m a) = true ->
   value sentiment_score_winsorized m a = value sentiment_score m a) /\
  (isnan (value sentiment_score m a) = false ->
   eqb (value sentiment_score_winsorized m a)
       (clip (low_percentile_value (decimal 1 2) (universe_sentiment m))
             (high_percentile_value (decimal 95 2) (universe_sentiment m))
             (value sentiment_score m a)) = true).
Proof.
  intros Hin Hu Hsize. unfold universe_sentiment. rewrite <- universe_mask_rows.
  apply winsorize_clips; try reflexivity; [|assumption|].
  - apply ranks_in_order_checked.
    rewrite universe_mask_rows. unfold count_nonnan. rewrite length_map. lia.
  - unfold Filter_and. now rewrite Hu.
Qed.

(** Among twenty ratios the highest one is clipped to the one before
    it, and none is clipped from below. *)
Lemma winsorize_row_twenty :
  winsorize_row (decimal 1 2) (decimal 95 2) twenty_ratios
  = map of_Z [1; 2; 3; 4; 5; 6; 7; 8; 9; 10; 11; 12; 13; 14; 15; 16; 17; 18; 19; 19] /\
  low_percentile_value (decimal 1 2) twenty_ratios = of_Z 1 /\
  high_percentile_value (decimal 95 2) twenty_ratios = of_Z 19.
Proof. repeat split; vm_compute; reflexivity. Qed.

(** *** Rank values and ascending arrangements *)

Lemma filter_perm {A : Type} (P : A -> bool) (l l' : list A) :
  Permutation l l' -> Permutation (filter P l) (filter P l').
Proof.
  induction 1 as [|x l l' _ IH|x y l|l l' l'' _ IH1 _ IH2]; simpl.
  - constructor.
  - destruct (P x); [now constructor|assumption].
  - destruct (P x), (P y); try reflexivity. apply perm_swap.
  - now rewrite IH1.
Qed.

Lemma filter_map_comm {A B : Type} (P : B -> bool) (g : A -> B) (l : list A) :
  filter P (map g l) = map g (filter (fun x => P (g x)) l).
Proof.
  induction l as [|x l IH]; simpl; [reflexivity|].
  destruct (P (g x)); simpl; now rewrite IH.
Qed.

(** A filter that holds exactly on the first [c] entries keeps them. *)
Lemma filter_firstn_prefix {A : Type} (P : A -> bool) (d : A) (l : list A) :
  forall c,
    (forall k, (k < List.length l)%nat -> (P (nth k l d) = true <-> (k < c)%nat)) ->
    filter P l = firstn c l.
Proof.
  induction l as [|x l IH]; intros c H; [now rewrite firstn_nil|].
  destruct c as [|c].
  - simpl firstn.
    assert (Hx : P x = false).
    { destruct (P x) eqn:E; [|reflexivity].
      apply (H O) in E; [lia|simpl; lia]. }
    simpl. rewrite Hx. rewrite (IH O); [reflexivity|].
    intros k Hk. specialize (H (S k)). simpl in H. split; [|lia].
    intros E. apply H in E; lia.
  - assert (Hx : P x = true) by (apply (H O); simpl; lia).
    simpl. rewrite Hx. f_equal. apply IH.
    intros k Hk. specialize (H (S k)). simpl in H.
    split; intros E; [apply H in E; lia|apply H; lia].
Qed.

Lemma map_nth_firstn {A : Type} (l : list A) (d : A) (c : nat) :
  (c <= List.length l)%nat -> map (fun k => nth k l d) (seq 0 c) = firstn c l.
Proof.
  revert c. induction l as [|x l IH]; intros c Hc.
  - simpl in Hc. assert (c = O) by lia. now subst c.
  - destruct c as [|c]; [reflexivity|]. simpl.
    f_equal. rewrite <- seq_shift, map_map. apply IH. simpl in Hc. lia.
Qed.

Lemma sorted_map_seq {A : Type} (R : A -> A -> Prop) (g : nat -> A) (c : nat) :
  forall a,
    (forall i j, (a <= i)%nat -> (i < j)%nat -> (j < a + c)%nat -> R (g i) (g j)) ->
    StronglySorted R (map g (seq a c)).
Proof.
  induction c as [|c IH]; intros a H; simpl; constructor.
  - apply IH. intros i j Hi Hij Hj. apply H; lia.
  - apply Forall_forall. intros y Hy. apply in_map_iff in Hy.
    destruct Hy as (j & <- & Hj). apply in_seq in Hj. apply H; lia.
Qed.

(** The numbers of a row by rank. *)
Lemma ranked_values_perm (row : list float) :
  Permutation (map (rank_value row) (seq 0 (count_nonnan row))) (nonnan row).
Proof.
  set (P := fun i => negb (isnan (nth i row nan))).
  assert (E1 : map (rank_value row) (seq 0 (count_nonnan row))
               = map (fun i => nth i row nan) (firstn (count_nonnan row) (argsort row))).
  { rewrite <- (map_nth_firstn (argsort row) O).
    - now rewrite map_map.
    - rewrite argsort_length. apply count_nonnan_le. }
  assert (E2 : firstn (count_nonnan row) (argsort row) = filter P (argsort row)).
  { symmetry. apply (filter_firstn_prefix P O). intros k Hk.
    rewrite <- count_nonnan_indices. unfold P. rewrite negb_true_iff.
    apply nan_suffix; [apply argsort_sorted|assumption]. }
  rewrite E1, E2.
  rewrite (filter_perm P _ _ (argsort_perm row)).
  unfold P. rewrite <- (filter_map_comm (fun x => negb (isnan x)) (fun i => nth i row nan)).
  now rewrite map_nth_seq.
Qed.

Lemma ranked_values_ascending (row : list float) :
  ascending (map (rank_value row) (seq 0 (count_nonnan row))).
Proof.
  apply sorted_map_seq. intros i j _ Hij Hj. apply rank_value_le; lia.
Qed.

Lemma count_nonnan_length (row : list float) :
  count_nonnan row = List.length (nonnan row).
Proof. unfold count_nonnan, nonnan. now rewrite filter_negb_length. Qed.

(** The value of rank [k] is, but for the sign of a zero, entry [k] of
    any ascending arrangement of the numbers of the row. *)
Lemma rank_value_of_any_sorted (row s : list float) (k : nat) :
  Permutation s (nonnan row) -> ascending s -> (k < count_nonnan row)%nat ->
  key (nth k s nan) = key (rank_value row k).
Proof.
  intros Hp Hs Hk.
  assert (E : map key s = map key (map (rank_value row) (seq 0 (count_nonnan row)))).
  { apply ascending_same_keys; [assumption|apply ranked_values_ascending|].
    rewrite ranked_values_perm. assumption. }
  rewrite <- (map_nth key s nan k), E, (map_nth key _ nan k).
  f_equal.
  rewrite (nth_indep _ nan (rank_value row O)) by now rewrite length_map, length_seq.
  rewrite (map_nth (rank_value row) _ O k). now rewrite seq_nth.
Qed.

Lemma key_ltb (x x' y y' : float) :
  key x = key x' -> key y = key y' -> ltb x y = ltb x' y'.
Proof.
  intros Ex Ey.
  destruct (key_eq_cases x x' Ex) as [->|[Hx Hx']];
    destruct (key_eq_cases y y' Ey) as [->|[Hy Hy']]; [reflexivity| | |].
  - destruct y as [sy| | |]; try discriminate. destruct y' as [sy'| | |]; try discriminate.
    destruct x' as [[|]|[|]| |[|] ? ?]; reflexivity.
  - destruct x as [sx| | |]; try discriminate. destruct x' as [sx'| | |]; try discriminate.
    destruct y' as [[|]|[|]| |[|] ? ?]; reflexivity.
  - destruct x as [sx| | |]; try discriminate. destruct x' as [sx'| | |]; try discriminate.
    destruct y as [sy| | |]; try discriminate. destruct y' as [sy'| | |]; try discriminate.
    reflexivity.
Qed.

Lemma key_eqb (x x' y y' : float) :
  key x = key x' -> key y = key y' -> eqb x y = eqb x' y'.
Proof.
  intros Ex Ey.
  destruct (key_eq_cases x x' Ex) as [->|[Hx Hx']];
    destruct (key_eq_cases y y' Ey) as [->|[Hy Hy']]; [reflexivity| | |].
  - destruct y as [sy| | |]; try discriminate. destruct y' as [sy'| | |]; try discriminate.
    destruct x' as [[|]|[|]| |[|] ? ?]; reflexivity.
  - destruct x as [sx| | |]; try discriminate. destruct x' as [sx'| | |]; try discriminate.
    destruct y' as [[|]|[|]| |[|] ? ?]; reflexivity.
  - destruct x as [sx| | |]; try discriminate. destruct x' as [sx'| | |]; try discriminate.
    destruct y as [sy| | |]; try discriminate. destruct y' as [sy'| | |]; try discriminate.
    reflexivity.
Qed.

Lemma key_clip (lo lo' hi hi' x : float) :
  key lo = key lo' -> key hi = key hi' -> key (clip lo hi x) = key (clip lo' hi' x).
Proof.
  intros El Eh. unfold clip.
  rewrite (key_ltb x x lo lo' eq_refl El), (key_ltb hi hi' x x Eh eq_refl).
  destruct (ltb x lo'); [assumption|]. destruct (ltb hi' x); [assumption|reflexivity].
Qed.

(** C7, counterexample. On the day of the twenty securities the ratios
    are 1 to 20 up to rounding.  Their 95th percentile, by linear
    interpolation, is 19.05 up to rounding; the ratio of S20 is above it
    and is replaced by the ratio of S19, which is below that percentile.
    Their 1st percentile is 1.19; the ratio 1.0 of S01 is below it and
    is kept as it is. *)
Lemma winsorized_ratio_counterexample :
  nanpercentile (universe_sentiment twenty_market) (of_Z 95)
  = S754_finite false 5362098306337995 (-48) /\
  value sentiment_score twenty_market "S19" = S754_finite false 5348024557502462 (-48) /\
  value sentiment_score twenty_market "S20" = S754_finite false 5629499534213119 (-48) /\
  ltb (nanpercentile (universe_sentiment twenty_market) (of_Z 95))
      (value sentiment_score twenty_market "S20") = true /\
  value sentiment_score_winsorized twenty_market "S20"
  = value sentiment_score twenty_market "S19" /\
  ltb (value sentiment_score_winsorized twenty_market "S20")
      (nanpercentile (universe_sentiment twenty_market) (of_Z 95)) = true /\
  nanpercentile (universe_sentiment twenty_market) (of_Z 1) = decimal 119 2 /\
  value sentiment_score twenty_market "S01" = of_Z 1 /\
  ltb (value sentiment_score twenty_market "S01")
      (nanpercentile (universe_sentiment twenty_market) (of_Z 1)) = true /\
  value sentiment_score_winsorized twenty_market "S01" = of_Z 1.
Proof.
  repeat (refine (conj _ _); [vm_compute; reflexivity|]).
  vm_compute. reflexivity.
Qed.

(** C7, amended. For a member of the universe the sentiment ratio is the
    7-day average of the scanned message count divided by the 7-day
    average of bull-minus-bear, each average being the sum, from the
    oldest day on, of the values that are not missing, divided by their
    count.  The winsorized value of a missing ratio is missing.  With the
    [n] ratios of the universe that are numbers in ascending order [s],
    whichever such arrangement is taken, the winsorized value of a ratio
    equals that ratio clipped between the ratio of rank int(0.01 n) and
    the ratio of rank ceil(0.95 n) - 1, ranks counted from 0: a ratio
    outside is replaced by the nearest ratio of the universe inside, not
    by an interpolated percentile.  This is proved for universes of up to
    10000 members. *)
Theorem sentiment_ratio_is_winsorized_quotient (m : market) (a : asset) (s : list float) :
  In a (assets m) -> universe m a = true ->
  (List.length (filter (universe m) (assets m)) <= Z.to_nat 10000)%nat ->
  Permutation s
    (filter (fun x => negb (isnan x))
       (map (value sentiment_score m) (filter (universe m) (assets m)))) ->
  StronglySorted (fun x y => leb x y = true) s ->
  let days c := map (history m c a) (rev (seq 0 7)) in
  let present l := filter (fun x => negb (isnan x)) l in
  let mean l := div (fold_left add l zero) (of_nat (List.length l)) in
  let ratio := value sentiment_score m a in
  let n := List.length s in
  let lo := nth (Z.to_nat (trunc (mul (decimal 1 2) (of_nat n)))) s nan in
  let hi := nth (Nat.min (Z.to_nat (ceil (mul (of_nat n) (decimal 95 2)))) n - 1) s nan in
  RETURNS_LOOKBACK_DAYS = 7%nat /\
  ratio = div (mean (present (days stocktwits_total_scanned_messages)))
              (mean (present (days stocktwits_bull_minus_bear))) /\
  sentiment_score_winsorized
  = winsorize sentiment_score (decimal 1 2) (decimal 95 2) universe /\
  (isnan ratio = true -> value sentiment_score_winsorized m a = ratio) /\
  (isnan ratio = false ->
   leb lo hi = true /\
   eqb (value sentiment_score_winsorized m a)
       (if ltb ratio lo then lo else if ltb hi ratio then hi else ratio) = true).
Proof.
  intros Hin Hu Hsize Hp Hs days present mean ratio n lo hi.
  destruct (winsorized_sentiment m a Hin Hu Hsize) as [Hnan Hnum].
  split; [reflexivity|]. split; [|split; [reflexivity|split; [exact Hnan|]]].
  - unfold ratio, sentiment_score, total_messages, bull_m_bear.
    cbn [value Factor_div SimpleMovingAverage]. rewrite Hu.
    unfold mean, present, days, nanmean, sum, nonnan, window. reflexivity.
  - intros Hx. specialize (Hnum Hx).
    set (row := universe_sentiment m) in *.
    assert (Hp' : Permutation s (nonnan row)) by exact Hp.
    assert (Hs' : ascending s) by exact Hs.
    assert (Hn : n = count_nonnan row).
    { unfold n. rewrite count_nonnan_length. now apply Permutation_length. }
    assert (Hpos : (0 < count_nonnan row)%nat).
    { rewrite count_nonnan_length.
      assert (Hm : In ratio (nonnan row)).
      { unfold nonnan. apply filter_In. split.
        - unfold row, universe_sentiment. apply in_map. apply filter_In. now split.
        - now rewrite Hx. }
      destruct (nonnan row); [destruct Hm|simpl; lia]. }
    assert (Hord : ranks_in_order (decimal 1 2) (decimal 95 2) (count_nonnan row) = true).
    { apply ranks_in_order_checked.
      unfold count_nonnan, row, universe_sentiment. rewrite length_map.
      unfold checked_universe_size. lia. }
    unfold ranks_in_order in Hord. apply orb_true_iff in Hord.
    destruct Hord as [Hz|Hord]; [apply Nat.eqb_eq in Hz; lia|]. apply Nat.ltb_lt in Hord.
    assert (El : key lo = key (low_percentile_value (decimal 1 2) row)).
    { unfold lo, low_percentile_value. rewrite Hn.
      apply rank_value_of_any_sorted; [assumption|assumption|].
      lia. }
    assert (Eh : key hi = key (high_percentile_value (decimal 95 2) row)).
    { unfold hi, high_percentile_value. rewrite Hn.
      apply rank_value_of_any_sorted; [assumption|assumption|]. lia. }
    split.
    + rewrite (key_leb lo _ hi _ El Eh).
      unfold low_percentile_value, high_percentile_value.
      apply rank_value_le; unfold lower_rank, upper_rank in *; lia.
    + rewrite (key_eqb _ _ _ (clip (low_percentile_value (decimal 1 2) row)
                                   (high_percentile_value (decimal 95 2) row) ratio)
                 eq_refl (key_clip lo _ hi _ ratio El Eh)).
      exact Hnum.
Qed.

Lemma same_members_twenty : Permutation twenty_names (assets twenty_market).
Proof.
  change twenty_names with (firstn 10 twenty_names ++ skipn 10 twenty_names)%list at 1.
  change (assets twenty_market)
    with (skipn 10 twenty_names ++ rev (firstn 10 twenty_names))%list.
  rewrite Permutation_app_comm. apply Permutation_app_head. apply Permutation_rev.
Qed.

Lemma sentiment_ratio_is_winsorized_quotient_witness :
  In "S20" (assets twenty_market) /\ universe twenty_market "S20" = true /\
  (List.length (filter (universe twenty_market) (assets twenty_market))
   <= Z.to_nat 10000)%nat /\
  Permutation (map (value sentiment_score twenty_market) twenty_names)
    (filter (fun x => negb (isnan x))
       (map (value sentiment_score twenty_market)
          (filter (universe twenty_market) (assets twenty_market)))) /\
  StronglySorted (fun x y => leb x y = true)
    (map (value sentiment_score twenty_market) twenty_names) /\
  map (value sentiment_score twenty_market) ["S09"; "S17"; "S18"; "S19"; "S20"]
  = [of_Z 9; S754_finite false 4785074604081151 (-48); of_Z 18;
     S754_finite false 5348024557502462 (-48); S754_finite false 5629499534213119 (-48)] /\
  value sentiment_score_winsorized twenty_market "S20"
  = S754_finite false 5348024557502462 (-48) /\
  value sentiment_score twenty_market "S20"
  = div (div (fold_left add
                (map (history twenty_market stocktwits_total_scanned_messages "S20")
                   [6; 5; 4; 3; 2; 1; 0]%nat) zero) (of_Z 7))
        (div (fold_left add
                (map (history twenty_market stocktwits_bull_minus_bear "S20")
                   [6; 5; 4; 3; 2; 1; 0]%nat) zero) (of_Z 7)) /\
  eqb (value sentiment_score_winsorized twenty_market "S20")
      (nth 18 (map (value sentiment_score twenty_market) twenty_names) nan) = true.
Proof.
  assert (H1 : In "S20" (assets twenty_market)) by (vm_compute; tauto).
  assert (H2 : universe twenty_market "S20" = true) by reflexivity.
  assert (H3 : (List.length (filter (universe twenty_market) (assets twenty_market))
                <= Z.to_nat 10000)%nat)
    by (apply Nat.leb_le; vm_compute; reflexivity).
  assert (H4 : Permutation (map (value sentiment_score twenty_market) twenty_names)
                 (filter (fun x => negb (isnan x))
                    (map (value sentiment_score twenty_market)
                       (filter (universe twenty_market) (assets twenty_market))))).
  { replace (filter (fun x => negb (isnan x))
               (map (value sentiment_score twenty_market)
                  (filter (universe twenty_market) (assets twenty_market))))
      with (map (value sentiment_score twenty_market) (assets twenty_market))
      by (vm_compute; reflexivity).
    apply Permutation_map, same_members_twenty. }
  assert (H5 : StronglySorted (fun x y => leb x y = true)
                 (map (value sentiment_score twenty_market) twenty_names))
    by (vm_compute; repeat constructor).
  split; [exact H1|]. split; [exact H2|]. split; [exact H3|].
  split; [exact H4|]. split; [exact H5|].
  split; [vm_compute; reflexivity|]. split; [vm_compute; reflexivity|].
  pose proof (sentiment_ratio_is_winsorized_quotient twenty_market "S20" _ H1 H2 H3 H4 H5) as H.
  cbv zeta in H. destruct H as (_ & E & _ & _ & Hclip).
  split; [vm_compute; reflexivity|].
  assert (Hx : isnan (value sentiment_score twenty_market "S20") = false)
    by (vm_compute; reflexivity).
  destruct (Hclip Hx) as [_ Hc].
  replace (nth 18 (map (value sentiment_score twenty_market) twenty_names) nan)
    with (let s := map (value sentiment_score twenty_market) twenty_names in
          let ratio := value sentiment_score twenty_market "S20" in
          let n := List.length s in
          let lo := nth (Z.to_nat (trunc (mul (decimal 1 2) (of_nat n)))) s nan in
          let hi := nth (Nat.min (Z.to_nat (ceil (mul (of_nat n) (decimal 95 2)))) n - 1) s nan in
          if ltb ratio lo then lo else if ltb hi ratio then hi else ratio)
    by (vm_compute; reflexivity).
  exact Hc.
Defined.

(** ** Missing and infinite values *)

(** C3, counterexample. On the example day A has no sentiment data and
    is eligible; its
    staged score is 1.0, while the product of its two remaining factors,
    with 1.0 for the missing one, is negative. *)
Lemma missing_factor_counterexample :
  value bull_m_bear demo_market "A" = nan /\
  value total_messages demo_market "A" = nan /\
  securities_to_trade recent_returns_zscore demo_market "A" = true /\
  (exists staged,
     staged_scores Context.empty demo_market = Some staged /\
     lookup "A" staged = Some (of_Z 1) /\
     lookup "A" staged <> Some (product_of_remaining demo_market "A")) /\
  ltb (product_of_remaining demo_market "A") zero = true.
Proof.
  split; [vm_compute; reflexivity|].
  split; [vm_compute; reflexivity|].
  split; [vm_compute; reflexivity|].
  split; [|vm_compute; reflexivity].
  eexists. split; [vm_compute; reflexivity|].
  split; [vm_compute; reflexivity|].
  vm_compute. discriminate.
Qed.

Lemma div_nan_r (x : float) : div x nan = nan.
Proof. now destruct x. Qed.

Lemma factor_product_nan (m : market) (a : asset) :
  isnan (value sentiment_score_winsorized m a) = true \/
  isnan (value recent_returns_zscore m a) = true \/
  isnan (value mean_average_multiplier m a) = true ->
  factor_product m a = nan.
Proof.
  unfold factor_product. intros [H|[H|H]]; apply isnan_eq in H; rewrite H.
  - reflexivity.
  - now rewrite mul_nan_r.
  - now rewrite mul_nan_r.
Qed.

Lemma securities_to_trade_universe (z : Factor) (m : market) (a : asset) :
  securities_to_trade z m a = true -> universe m a = true.
Proof.
  unfold securities_to_trade, Filter_and. intros H.
  now apply andb_true_iff in H.
Qed.

(** A security whose return z-score is missing does not pass the screen. *)
Lemma missing_zscore_not_traded (z : Factor) (m : market) (a : asset) :
  isnan (value z m a) = true -> securities_to_trade z m a = false.
Proof.
  intros H.
  assert (Hm : masked z universe m a = nan).
  { unfold masked. destruct (universe m a); [now apply isnan_eq|reflexivity]. }
  assert (Hl : forall x, leb x nan = false) by now destruct x.
  unfold securities_to_trade, Filter_and, Filter_or, low_returns, high_returns,
    percentile_between.
  rewrite Hm, !Hl. reflexivity.
Qed.

(** C3, amended. Nothing is substituted before the sentiment, eligibility
    and composite-score steps: for a security of the output with a missing
    factor value the product is NaN, and the hook stages 1.0 in its
    place. *)
Theorem missing_factor_stages_one (ctx : context) (m : market) (a : asset) :
  In a (assets m) ->
  securities_to_trade recent_returns_zscore m a = true ->
  has_missing_factor m a ->
  exists scores staged,
    composite_scores ctx m = Some scores /\
    lookup a scores = Some nan /\
    staged_scores ctx m = Some staged /\
    lookup a staged = Some (of_Z 1).
Proof.
  intros Hin Hs Hmiss.
  assert (Hu : universe m a = true) by exact (securities_to_trade_universe _ _ _ Hs).
  assert (Hp : factor_product m a = nan).
  { apply factor_product_nan.
    change (value mean_average_multiplier m a)
      with (div (value mean_close_200 m a) (value mean_close_50 m a)).
    destruct Hmiss as [H|[H|[H|[H Hsize]]]].
    - right; right. apply isnan_eq in H. rewrite H. now rewrite div_nan_r.
    - right; right. apply isnan_eq in H. now rewrite H.
    - now left.
    - left.
      assert (Hr : isnan (value sentiment_score m a) = true).
      { change (value sentiment_score m a)
          with (div (value total_messages m a) (value bull_m_bear m a)).
        destruct H as [H|H]; apply isnan_eq in H; rewrite H;
          [now rewrite div_nan_r|reflexivity]. }
      destruct (winsorized_sentiment m a Hin Hu Hsize) as [Hw _].
      now rewrite (Hw Hr). }
  assert (Hf : In a (filter (securities_to_trade recent_returns_zscore m) (assets m))).
  { apply filter_In. now split. }
  rewrite composite_scores_eq, staged_scores_eq. do 2 eexists.
  split; [reflexivity|]. split; [|split; [reflexivity|]].
  - rewrite (lookup_map_key _ _ _ Hf). now rewrite Hp.
  - rewrite (lookup_map_key _ _ _ Hf). now rewrite Hp.
Qed.

Lemma missing_factor_stages_one_witness :
  In "A" (assets demo_market) /\
  securities_to_trade recent_returns_zscore demo_market "A" = true /\
  has_missing_factor demo_market "A" /\
  exists scores staged,
    composite_scores Context.empty demo_market = Some scores /\
    lookup "A" scores = Some nan /\
    staged_scores Context.empty demo_market = Some staged /\
    lookup "A" staged = Some (of_Z 1).
Proof.
  assert (H1 : In "A" (assets demo_market)) by (left; reflexivity).
  assert (H2 : securities_to_trade recent_returns_zscore demo_market "A" = true)
    by (vm_compute; reflexivity).
  assert (H3 : has_missing_factor demo_market "A").
  { do 3 right. split.
    - left. vm_compute. reflexivity.
    - apply Nat.leb_le. vm_compute. reflexivity. }
  split; [exact H1|]. split; [exact H2|]. split; [exact H3|].
  exact (missing_factor_stages_one Context.empty demo_market "A" H1 H2 H3).
Defined.

(** C4, counterexample. On the example day the bull-minus-bear average
    of D is zero: its
    sentiment ratio is +infinity, stays so through winsorization and
    makes the product infinite; it is not 1.0. *)
Lemma zero_sentiment_counterexample :
  value bull_m_bear demo_market "D" = zero /\
  value sentiment_score demo_market "D" = inf /\
  value sentiment_score_winsorized demo_market "D" = inf /\
  factor_product demo_market "D" = inf /\
  value sentiment_score demo_market "D" <> of_Z 1 /\
  value sentiment_score_winsorized demo_market "D" <> of_Z 1.
Proof.
  repeat split; try (vm_compute; reflexivity); vm_compute; discriminate.
Qed.

(** C4, amended. With a bull-minus-bear average of exactly zero the
    sentiment ratio is an infinity or NaN, never 1.0; what is coerced to
    1.0 is the staged composite score of a security of the output,
    whenever the product is NaN or infinite, and every staged score is
    finite. *)
Theorem zero_sentiment_ratio_is_not_finite (ctx : context) (m : market) (a : asset) :
  iszero (value bull_m_bear m a) = true ->
  isfinite (value sentiment_score m a) = false /\
  exists staged,
    staged_scores ctx m = Some staged /\
    (forall v, lookup a staged = Some v ->
       isfinite v = true /\
       (isfinite (factor_product m a) = false -> v = of_Z 1)).
Proof.
  intros Hz. split.
  - change (value sentiment_score m a)
      with (div (value total_messages m a) (value bull_m_bear m a)).
    now apply div_by_zero_not_finite.
  - rewrite staged_scores_eq. eexists. split; [reflexivity|].
    intros v Hl. apply lookup_In in Hl. apply in_map_iff in Hl.
    destruct Hl as (b & [= <- <-] & _). split.
    + apply coerced_finite.
    + apply coerced_not_finite.
Qed.

Lemma zero_sentiment_ratio_is_not_finite_witness :
  iszero (value bull_m_bear demo_market "D") = true /\
  isfinite (value sentiment_score demo_market "D") = false /\
  exists staged,
    staged_scores Context.empty demo_market = Some staged /\
    (forall v, lookup "D" staged = Some v ->
       isfinite v = true /\
       (isfinite (factor_product demo_market "D") = false -> v = of_Z 1)).
Proof.
  assert (H : iszero (value bull_m_bear demo_market "D") = true)
    by (vm_compute; reflexivity).
  split; [exact H|].
  exact (zero_sentiment_ratio_is_not_finite Context.empty demo_market "D" H).
Defined.

(** ** Determinism *)

Section SameInputs.

Variables m1 m2 : market.
Hypothesis same_assets : assets m1 = assets m2.

Lemma agree_div (f g : Factor) : agree m1 m2 f -> agree m1 m2 g -> agree m1 m2 (f / g)%factor.
Proof. intros Hf Hg a Ha. simpl. now rewrite (Hf a Ha), (Hg a Ha). Qed.

Lemma agree_mul (f g : Factor) : agree m1 m2 f -> agree m1 m2 g -> agree m1 m2 (f * g)%factor.
Proof. intros Hf Hg a Ha. simpl. now rewrite (Hf a Ha), (Hg a Ha). Qed.

Lemma agree_filter_and (k l : Filter) :
  agree_filter m1 m2 k -> agree_filter m1 m2 l -> agree_filter m1 m2 (k && l)%filter.
Proof. intros Hk Hl a Ha. unfold Filter_and. now rewrite (Hk a Ha), (Hl a Ha). Qed.

Lemma agree_filter_or (k l : Filter) :
  agree_filter m1 m2 k -> agree_filter m1 m2 l -> agree_filter m1 m2 (k || l)%filter.
Proof. intros Hk Hl a Ha. unfold Filter_or. now rewrite (Hk a Ha), (Hl a Ha). Qed.

Lemma agree_transform (t : list float -> list float) (f : Factor) (msk : option Filter) :
  agree_filter m1 m2 (mask (GroupedRowTransform t f msk)) -> agree m1 m2 f ->
  agree m1 m2 (GroupedRowTransform t f msk).
Proof.
  intros Hk Hf a Ha. simpl in Hk |- *. rewrite <- same_assets.
  rewrite <- (Hk a Ha).
  rewrite <- (filter_ext_in _ _ _ Hk).
  set (cols := filter _ (assets m1)).
  assert (Hrow : map (value f m1) cols = map (value f m2) cols).
  { apply map_ext_in. intros b Hb. apply Hf.
    unfold cols in Hb. apply filter_In in Hb. tauto. }
  now rewrite Hrow.
Qed.

Lemma agree_percentile_between (f : Factor) (lo hi : float) (msk : Filter) :
  agree_filter m1 m2 msk -> agree m1 m2 f -> agree_filter m1 m2 (percentile_between f lo hi msk).
Proof.
  intros Hk Hf a Ha. unfold percentile_between. rewrite <- same_assets.
  assert (Hm : forall b, In b (assets m1) -> masked f msk m1 b = masked f msk m2 b).
  { intros b Hb. unfold masked. now rewrite (Hk b Hb), (Hf b Hb). }
  now rewrite (map_ext_in _ _ _ Hm), (Hm a Ha).
Qed.

Lemma agree_run_pipeline (z : Factor) :
  agree_filter m1 m2 (securities_to_trade z) -> agree m1 m2 (total_score z) ->
  run_pipeline (pipe z) m1 = run_pipeline (pipe z) m2.
Proof.
  intros Hk Hf. unfold run_pipeline, pipe. cbn [columns screen map fst snd].
  rewrite <- same_assets, <- (filter_ext_in _ _ _ Hk). do 2 f_equal.
  apply map_ext_in. intros b Hb. f_equal. apply Hf.
  apply filter_In in Hb. tauto.
Qed.

End SameInputs.

Lemma same_raw_factors_same_output (m1 m2 : market) :
  same_raw_factors m1 m2 ->
  run_pipeline (pipe recent_returns_zscore) m1 = run_pipeline (pipe recent_returns_zscore) m2.
Proof.
  intros [Ha H].
  assert (Hu : agree_filter m1 m2 universe).
  { intros a Hin. now destruct (H a Hin) as (E & _). }
  assert (H50 : agree m1 m2 mean_close_50).
  { intros a Hin. now destruct (H a Hin) as (_ & E & _). }
  assert (H200 : agree m1 m2 mean_close_200).
  { intros a Hin. now destruct (H a Hin) as (_ & _ & E & _). }
  assert (Hbmb : agree m1 m2 bull_m_bear).
  { intros a Hin. now destruct (H a Hin) as (_ & _ & _ & E & _). }
  assert (Htot : agree m1 m2 total_messages).
  { intros a Hin. now destruct (H a Hin) as (_ & _ & _ & _ & E & _). }
  assert (Hret : agree m1 m2 recent_returns).
  { intros a Hin. now destruct (H a Hin) as (_ & _ & _ & _ & _ & E). }
  clear H.
  assert (Hz : agree m1 m2 recent_returns_zscore).
  { unfold recent_returns_zscore, zscore.
    apply agree_transform; [exact Ha|exact Hu|exact Hret]. }
  assert (Hw : agree m1 m2 sentiment_score_winsorized).
  { unfold sentiment_score_winsorized, winsorize.
    apply agree_transform; [exact Ha| |].
    - apply agree_filter_and; [exact Hu|]. intros a Hin. reflexivity.
    - apply agree_div; assumption. }
  assert (Ht : agree m1 m2 mean_average_multiplier).
  { apply agree_div; assumption. }
  apply agree_run_pipeline; [exact Ha| |].
  - apply agree_filter_and; [|exact Hu].
    apply agree_filter_or; apply agree_percentile_between; assumption.
  - apply agree_mul; [apply agree_mul|]; assumption.
Qed.

(** C9. On two days with the same universe and the same five raw factor
    values the pipeline puts out the same composite scores, and the hook
    leaves the same context, staged scores included, whatever context
    each run started from. *)
Theorem composer_is_deterministic (ctx1 ctx2 : context) (m1 m2 : market) :
  same_raw_factors m1 m2 ->
  composite_scores ctx1 m1 = composite_scores ctx2 m2 /\
  before_trading_start the_algo ctx1 m1 = before_trading_start the_algo ctx2 m2 /\
  staged_scores ctx1 m1 = staged_scores ctx2 m2.
Proof.
  intros H. apply same_raw_factors_same_output in H.
  assert (Hb : before_trading_start the_algo ctx1 m1
               = before_trading_start the_algo ctx2 m2).
  { unfold before_trading_start, the_algo, initialize, pipeline_output. simpl lookup.
    unfold option_map, make_pipeline. now rewrite H. }
  split; [|split].
  - unfold composite_scores, make_pipeline. now rewrite H.
  - exact Hb.
  - unfold staged_scores. now rewrite Hb.
Qed.

Lemma composer_is_deterministic_witness :
  same_raw_factors demo_market demo_market' /\
  history demo_market USEquityPricing_close "A" 300
  <> history demo_market' USEquityPricing_close "A" 300 /\
  composite_scores Context.empty demo_market = composite_scores demo_context demo_market' /\
  before_trading_start the_algo Context.empty demo_market
  = before_trading_start the_algo demo_context demo_market' /\
  staged_scores Context.empty demo_market = staged_scores demo_context demo_market'.
Proof.
  assert (H : same_raw_factors demo_market demo_market').
  { split; [reflexivity|].
    intros a [<-|[<-|[<-|[<-|[]]]]]; vm_compute; repeat split. }
  split; [exact H|]. split; [vm_compute; discriminate|].
  exact (composer_is_deterministic Context.empty demo_context demo_market demo_market' H).
Defined.

(** ** The hooks and the registrations *)

Lemma lookup_fillna_run (p : Pipeline) (m : market) (name : string) :
  lookup name (DataFrame_fillna (run_pipeline p m) (of_Z 1))
  = option_map
      (fun f => Series_fillna
                  (map (fun a => (a, value f m a)) (filter (screen p m) (assets m)))
                  (of_Z 1))
      (lookup name (columns p)).
Proof.
  unfold DataFrame_fillna, run_pipeline.
  rewrite (lookup_map_snd (fun s => Series_fillna s (of_Z 1))).
  rewrite (lookup_map_snd
             (fun f => map (fun a => (a, value f m a)) (filter (screen p m) (assets m)))).
  now destruct (lookup name (columns p)).
Qed.

(** X1. The pre-open hook succeeds exactly when a pipeline is attached
    under the name it asks for and that pipeline has a [total_score]
    column; [initialize] attaches such a pipeline, so the hook succeeds on
    every day once [initialize] has run, and it sets both attributes. *)
Theorem hook_succeeds_iff_pipeline_attached :
  (forall (al : algo) (ctx : context) (m : market),
     (exists ctx', before_trading_start al ctx m = Some ctx')
     <-> (exists p f, lookup "mean_reversion_example" (attached al) = Some p /\
                      lookup "total_score" (columns p) = Some f)) /\
  (forall (c0 ctx : context) (m : market),
     exists ctx' df staged,
       before_trading_start (initialize c0) ctx m = Some ctx' /\
       Context.output ctx' = Some df /\
       Context.total_score ctx' = Some staged).
Proof.
  split.
  - intros al ctx m. unfold before_trading_start, pipeline_output.
    destruct (lookup "mean_reversion_example" (attached al)) as [p|]; simpl.
    + rewrite lookup_fillna_run.
      destruct (lookup "total_score" (columns p)) as [f|] eqn:E; simpl.
      * split; intros _; [exists p, f; now split|eexists; reflexivity].
      * split; [intros [? [=]]|intros (q & f & [= <-] & F); congruence].
    + split; [intros [? [=]]|intros (? & ? & [=] & _)].
  - intros c0 ctx m. do 3 eexists. split; [reflexivity|]. split; reflexivity.
Qed.

Lemma coerced_cases (x : float) :
  coerced x = if isfinite x then x else of_Z 1.
Proof.
  destruct (isfinite x) eqn:E;
    [now apply coerced_of_finite|now apply coerced_not_finite].
Qed.

(** X2. [rebalance] fails on a context in which no score was staged; run
    after the pre-open hook of a day it succeeds, and its objective holds
    one alpha for every eligible security and for no other: the negated
    product of the three factors, or -1.0 where that product is NaN or
    infinite. *)
Theorem rebalance_after_hook (ctx : context) (m : market) :
  (forall c, Context.total_score c = None -> rebalance c = None) /\
  exists ctx' request alphas,
    before_trading_start the_algo ctx m = Some ctx' /\
    rebalance ctx' = Some request /\
    objective request = MaximizeAlpha alphas /\
    (forall a, eligible recent_returns_zscore m a ->
       lookup a alphas
       = Some (opp (if isfinite (factor_product m a) then factor_product m a
                    else of_Z 1))) /\
    (forall a, ~ eligible recent_returns_zscore m a -> lookup a alphas = None).
Proof.
  split.
  - intros c Hc. unfold rebalance. now rewrite Hc.
  - rewrite before_trading_start_eq. do 3 eexists.
    split; [reflexivity|]. split; [reflexivity|]. split; [reflexivity|].
    unfold Series_neg. rewrite map_map. cbn [fst snd]. split.
    + intros a He. apply securities_to_trade_eligible in He.
      rewrite <- filter_In in He.
      rewrite (lookup_map_key _ _ _ He). now rewrite coerced_cases.
    + intros a Hn. apply lookup_map_key_none.
      rewrite filter_In. now rewrite securities_to_trade_eligible.
Qed.

Lemma filter_nothing {A : Type} (f : A -> bool) (l : list A) :
  (forall x, In x l -> f x = false) -> filter f l = [].
Proof.
  induction l as [|x l IH]; intros H; simpl; [reflexivity|].
  rewrite (H x (or_introl eq_refl)). apply IH. intros y Hy. apply H. now right.
Qed.

(** X3. On a day on which no security is tradable the pipeline puts out
    no score, the hook stages an empty mapping, and [rebalance] still
    submits its request: an objective without alphas and the three
    constraints. *)
Theorem nothing_tradable_empty_request (ctx : context) (m : market) :
  (forall a, In a (assets m) -> universe m a = false) ->
  composite_scores ctx m = Some [] /\
  staged_scores ctx m = Some [] /\
  exists ctx' request,
    before_trading_start the_algo ctx m = Some ctx' /\
    rebalance ctx' = Some request /\
    objective request = MaximizeAlpha [] /\
    List.length (constraints request) = 3%nat.
Proof.
  intros Hu.
  assert (Hf : filter (securities_to_trade recent_returns_zscore m) (assets m) = []).
  { apply filter_nothing. intros a Ha.
    unfold securities_to_trade, Filter_and. rewrite (Hu a Ha). apply andb_false_r. }
  rewrite composite_scores_eq, staged_scores_eq, before_trading_start_eq, Hf.
  split; [reflexivity|]. split; [reflexivity|].
  do 2 eexists. split; [reflexivity|]. split; [reflexivity|]. split; reflexivity.
Qed.

Lemma nothing_tradable_empty_request_witness :
  (forall a, In a (assets closed_market) -> universe closed_market a = false) /\
  composite_scores Context.empty closed_market = Some [] /\
  staged_scores Context.empty closed_market = Some [] /\
  exists ctx' request,
    before_trading_start the_algo Context.empty closed_market = Some ctx' /\
    rebalance ctx' = Some request /\
    objective request = MaximizeAlpha [] /\
    List.length (constraints request) = 3%nat.
Proof.
  assert (H : forall a, In a (assets closed_market) -> universe closed_market a = false)
    by (intros a _; reflexivity).
  split; [exact H|].
  exact (nothing_tradable_empty_request Context.empty closed_market H).
Defined.

Lemma In_lookup_NoDup {V : Type} (l : list (string * V)) (a : string) (v : V) :
  NoDup (map fst l) -> In (a, v) l -> lookup a l = Some v.
Proof.
  induction l as [|[k w] l IH]; simpl; intros Hnd Hin; [easy|].
  apply NoDup_cons_iff in Hnd. destruct Hnd as [Hk Hnd].
  destruct Hin as [[= -> ->]|Hin].
  - now rewrite String.eqb_refl.
  - destruct (String.eqb_spec a k) as [->|_]; [|now apply IH].
    exfalso. apply Hk. apply in_map_iff. now exists (k, v).
Qed.

(** X4. When the securities of the day are pairwise distinct, so are the
    securities of the staged mapping: each has one score, which is the
    one a look-up finds; and every staged security is a security of the
    day and a member of the universe. *)
Theorem staged_one_score_per_security (ctx : context) (m : market) :
  NoDup (assets m) ->
  exists staged,
    staged_scores ctx m = Some staged /\
    NoDup (map fst staged) /\
    (forall a v, In (a, v) staged <-> lookup a staged = Some v) /\
    (forall a, In a (map fst staged) -> In a (assets m) /\ universe m a = true).
Proof.
  intros Hnd. rewrite staged_scores_eq.
  set (l := filter (securities_to_trade recent_returns_zscore m) (assets m)).
  set (staged := map _ l). exists staged. split; [reflexivity|].
  unfold asset in *.
  assert (Hkeys : map fst staged = l).
  { unfold staged. rewrite map_map. cbn [fst]. apply map_id. }
  assert (Hl : NoDup l) by now apply NoDup_filter.
  rewrite Hkeys. split; [exact Hl|]. split.
  - intros a v. split; [|apply lookup_In].
    apply In_lookup_NoDup. now rewrite Hkeys.
  - intros a Ha. unfold l in Ha. apply filter_In in Ha. destruct Ha as [Ha Hs].
    split; [exact Ha|]. exact (securities_to_trade_universe _ _ _ Hs).
Qed.

Lemma staged_one_score_per_security_witness :
  NoDup (assets demo_market) /\
  exists staged,
    staged_scores Context.empty demo_market = Some staged /\
    NoDup (map fst staged) /\
    (forall a v, In (a, v) staged <-> lookup a staged = Some v) /\
    (forall a, In a (map fst staged) ->
       In a (assets demo_market) /\ universe demo_market a = true).
Proof.
  assert (H : NoDup (assets demo_market)).
  { repeat constructor; simpl; intuition discriminate. }
  split; [exact H|].
  exact (staged_one_score_per_security Context.empty demo_market H).
Defined.

(** X6. The frame the hook keeps in [context.output] has its NaN
    replaced but not its infinities: its [total_score] column has the
    securities of the staged mapping, holds no NaN, holds every product
    that is not NaN as it is, and so keeps an infinite product that the
    staged mapping replaces by 1.0. *)
Theorem output_keeps_infinities (ctx : context) (m : market) :
  exists ctx' df col staged,
    before_trading_start the_algo ctx m = Some ctx' /\
    Context.output ctx' = Some df /\
    lookup "total_score" df = Some col /\
    Context.total_score ctx' = Some staged /\
    map fst col = map fst staged /\
    (forall a v, In (a, v) col -> isnan v = false) /\
    (forall a, In a (assets m) ->
       securities_to_trade recent_returns_zscore m a = true ->
       lookup a col
       = Some (if isnan (factor_product m a) then of_Z 1 else factor_product m a) /\
       (isinf (factor_product m a) = true ->
        lookup a col = Some (factor_product m a) /\ lookup a staged = Some (of_Z 1))).
Proof.
  rewrite before_trading_start_eq.
  set (l := filter (securities_to_trade recent_returns_zscore m) (assets m)).
  eexists.
  exists (DataFrame_fillna (run_pipeline (make_pipeline Context.empty) m) (of_Z 1)).
  exists (map (fun a => (a, if isnan (factor_product m a) then of_Z 1
                            else factor_product m a)) l).
  exists (map (fun a => (a, coerced (factor_product m a))) l).
  split; [reflexivity|]. split; [reflexivity|]. split.
  { rewrite lookup_fillna_run.
    change (lookup "total_score" (columns (make_pipeline Context.empty)))
      with (Some (total_score recent_returns_zscore)).
    cbn [option_map]. unfold Series_fillna. rewrite map_map. reflexivity. }
  split; [reflexivity|]. split; [now rewrite !map_map|]. split.
  - intros a v Hin. apply in_map_iff in Hin. destruct Hin as (b & [= <- <-] & _).
    now destruct (factor_product m b).
  - intros a Ha Hs.
    assert (Hf : In a l) by (apply filter_In; now split).
    rewrite !(lookup_map_key _ _ _ Hf). split; [reflexivity|].
    intros Hinf. destruct (factor_product m a) as [s|s| |s p e]; try discriminate.
    split; [reflexivity|]. now destruct s.
Qed.

(** X7. The two substitutions of the hook commute, and cleaning a series
    that is already clean changes nothing: replacing the infinities first
    and the NaN next stages the same scores, and so does running both
    substitutions twice. *)
Theorem substitutions_commute (s : Series) :
  Series_replace (Series_fillna s (of_Z 1)) [inf; opp inf] (of_Z 1)
  = Series_fillna (Series_replace s [inf; opp inf] (of_Z 1)) (of_Z 1) /\
  Series_replace
    (Series_fillna (Series_replace (Series_fillna s (of_Z 1)) [inf; opp inf] (of_Z 1))
                   (of_Z 1))
    [inf; opp inf] (of_Z 1)
  = Series_replace (Series_fillna s (of_Z 1)) [inf; opp inf] (of_Z 1).
Proof.
  unfold Series_replace, Series_fillna. rewrite !map_map. cbn [fst snd].
  split; apply map_ext; intros [a x];
    destruct x as [[|]|[|]| |[|] p e]; reflexivity.
Qed.

(** ** Missing closes *)

Lemma lookup_combine_map (cols : list asset) (g : asset -> float) (a : asset) (v : float) :
  lookup a (combine cols (map g cols)) = Some v -> v = g a.
Proof.
  induction cols as [|c cols IH]; simpl; [discriminate|].
  destruct (String.eqb_spec a c) as [->|_]; [now intros [= <-]|exact IH].
Qed.

(** The z-score of a missing value is missing. *)
Lemma zscore_of_missing (f : Factor) (m : market) (a : asset) :
  isnan (value f m a) = true -> isnan (value (zscore f) m a) = true.
Proof.
  intros H. unfold zscore, GroupedRowTransform. cbn [value].
  destruct (mask f m a); [|reflexivity].
  unfold zscore_row. rewrite map_map.
  match goal with
  | |- context [lookup a ?l] => destruct (lookup a l) as [v|] eqn:E
  end; [|reflexivity].
  apply lookup_combine_map in E. subst v.
  apply isnan_eq in H. rewrite H. reflexivity.
Qed.

Lemma returns_of_missing_close (m : market) (a : asset) :
  universe m a = false \/
  isnan (history m USEquityPricing_close a 0) = true \/
  isnan (history m USEquityPricing_close a 6) = true ->
  isnan (value recent_returns m a) = true.
Proof.
  unfold recent_returns, Returns, RETURNS_LOOKBACK_DAYS. cbn [value Nat.pred].
  intros [H|[H|H]].
  - now rewrite H.
  - destruct (universe m a); [|reflexivity].
    apply isnan_eq in H. rewrite H. reflexivity.
  - destruct (universe m a); [|reflexivity].
    apply isnan_eq in H. rewrite H. now rewrite div_nan_r.
Qed.

(** X5. A security outside the universe, or whose close is missing today
    or six trading days back, has no 7-day return and no z-score: it does
    not pass the screen and has no staged score, whatever its sentiment
    and its trend. *)
Theorem missing_close_never_traded (ctx : context) (m : market) (a : asset) :
  universe m a = false \/
  isnan (history m USEquityPricing_close a 0) = true \/
  isnan (history m USEquityPricing_close a 6) = true ->
  isnan (value recent_returns_zscore m a) = true /\
  securities_to_trade recent_returns_zscore m a = false /\
  exists staged,
    staged_scores ctx m = Some staged /\
    lookup a staged = None /\
    ~ In a (map fst staged).
Proof.
  intros H. apply returns_of_missing_close in H.
  apply zscore_of_missing in H. fold recent_returns_zscore in H.
  pose proof (missing_zscore_not_traded _ m a H) as Hs.
  split; [exact H|]. split; [exact Hs|].
  rewrite staged_scores_eq. eexists. split; [reflexivity|].
  assert (Hn : ~ In a (filter (securities_to_trade recent_returns_zscore m) (assets m))).
  { rewrite filter_In. intros [_ C]. congruence. }
  split; [now apply lookup_map_key_none|].
  rewrite map_map. cbn [fst]. now rewrite map_id.
Qed.

Lemma missing_close_never_traded_witness :
  (universe gap_market "B" = false \/
   isnan (history gap_market USEquityPricing_close "B" 0) = true \/
   isnan (history gap_market USEquityPricing_close "B" 6) = true) /\
  isnan (value recent_returns_zscore gap_market "B") = true /\
  securities_to_trade recent_returns_zscore gap_market "B" = false /\
  exists staged,
    staged_scores Context.empty gap_market = Some staged /\
    lookup "B" staged = None /\
    ~ In "B" (map fst staged).
Proof.
  assert (H : universe gap_market "B" = false \/
              isnan (history gap_market USEquityPricing_close "B" 0) = true \/
              isnan (history gap_market USEquityPricing_close "B" 6) = true)
    by (right; right; reflexivity).
  split; [exact H|].
  exact (missing_close_never_traded Context.empty gap_market "B" H).
Defined.

(** ** The objective and the ranking *)

Lemma ltb_opp (x y : float) : ltb (opp y) (opp x) = ltb x y.
Proof.
  destruct x as [[|]|[|]| |[|] mx ex], y as [[|]|[|]| |[|] my ey]; try reflexivity;
    unfold ltb, SFltb, opp, SFopp, SFcompare; cbn [negb];
    change (Pos.compare_cont Eq my mx) with (Pos.compare my mx);
    change (Pos.compare_cont Eq mx my) with (Pos.compare mx my);
    destruct (Z.compare_spec ex ey), (Z.compare_spec ey ex); try lia; try reflexivity;
    destruct (Pos.compare_spec mx my), (Pos.compare_spec my mx);
    try lia; try reflexivity; congruence.
Qed.

Lemma ltb_zero_opp (x : float) :
  ltb zero (opp x) = ltb x zero /\ ltb (opp x) zero = ltb zero x.
Proof. destruct x as [[|]|[|]| |[|] mx ex]; split; reflexivity. Qed.

Lemma opp_involutive (x : float) : opp (opp x) = x.
Proof. destruct x as [[|]|[|]| |[|] mx ex]; reflexivity. Qed.

(** X8. The objective reverses the ranking of the staged scores: of two
    staged securities the one with the lower score has the higher alpha,
    a negative score gives a positive alpha and a positive score a
    negative one, and negating an alpha gives the score back. *)
Theorem objective_reverses_ranking (ctx : context) (staged : Series) :
  Context.total_score ctx = Some staged ->
  exists request alphas,
    rebalance ctx = Some request /\
    objective request = MaximizeAlpha alphas /\
    forall a b sa sb,
      lookup a staged = Some sa -> lookup b staged = Some sb ->
      exists la lb,
        lookup a alphas = Some la /\ lookup b alphas = Some lb /\
        ltb lb la = ltb sa sb /\
        ltb zero la = ltb sa zero /\
        ltb la zero = ltb zero sa /\
        opp la = sa.
Proof.
  intros Hs. unfold rebalance. rewrite Hs. do 2 eexists.
  split; [reflexivity|]. split; [reflexivity|].
  intros a b sa sb Ha Hb. exists (opp sa), (opp sb).
  unfold Series_neg. rewrite !lookup_map_snd, Ha, Hb.
  split; [reflexivity|]. split; [reflexivity|].
  split; [apply ltb_opp|]. split; [apply ltb_zero_opp|].
  split; [apply ltb_zero_opp|apply opp_involutive].
Qed.

Lemma objective_reverses_ranking_witness :
  Context.total_score demo_context = Some [("A", of_Z 3); ("D", decimal (-15) 1)] /\
  exists request alphas,
    rebalance demo_context = Some request /\
    objective request = MaximizeAlpha alphas /\
    forall a b sa sb,
      lookup a [("A", of_Z 3); ("D", decimal (-15) 1)] = Some sa ->
      lookup b [("A", of_Z 3); ("D", decimal (-15) 1)] = Some sb ->
      exists la lb,
        lookup a alphas = Some la /\ lookup b alphas = Some lb /\
        ltb lb la = ltb sa sb /\
        ltb zero la = ltb sa zero /\
        ltb la zero = ltb zero sa /\
        opp la = sa.
Proof.
  split; [reflexivity|].
  exact (objective_reverses_ranking demo_context
           [("A", of_Z 3); ("D", decimal (-15) 1)] eq_refl).
Defined.

(** ** The windows the pipeline reads *)

Lemma window_ext (m1 m2 : market) (c : BoundColumn) (a : asset) (n : nat) :
  (forall k, (k < n)%nat -> history m1 c a k = history m2 c a k) ->
  window m1 c a n = window m2 c a n.
Proof.
  intros H. unfold window. apply map_ext_in.
  intros k Hk. apply in_rev, in_seq in Hk. apply H. lia.
Qed.

Lemma same_windows_same_raw_factors (m1 m2 : market) :
  same_windows m1 m2 -> same_raw_factors m1 m2.
Proof.
  intros [Ha H]. split; [exact Ha|].
  intros a Hin. destruct (H a Hin) as [Hu Hw]. split; [exact Hu|].
  unfold mean_close_50, mean_close_200, bull_m_bear, total_messages, recent_returns,
    SimpleMovingAverage, Returns, RETURNS_LOOKBACK_DAYS.
  cbn [value Nat.pred]. rewrite <- Hu.
  destruct (universe m1 a); [|repeat split].
  destruct (Hw eq_refl) as (Hc & Hb & Ht).
  rewrite (window_ext m1 m2 USEquityPricing_close a 50) by (intros; apply Hc; lia).
  rewrite (window_ext m1 m2 USEquityPricing_close a 200 Hc).
  rewrite (window_ext m1 m2 stocktwits_bull_minus_bear a 7 Hb).
  rewrite (window_ext m1 m2 stocktwits_total_scanned_messages a 7 Ht).
  rewrite (Hc 0%nat), (Hc 6%nat) by lia.
  repeat split.
Qed.

Lemma same_output_same_hook (ctx1 ctx2 : context) (m1 m2 : market) :
  run_pipeline (pipe recent_returns_zscore) m1 = run_pipeline (pipe recent_returns_zscore) m2 ->
  before_trading_start the_algo ctx1 m1 = before_trading_start the_algo ctx2 m2.
Proof.
  intros H. unfold before_trading_start, the_algo, initialize, pipeline_output.
  simpl lookup. unfold option_map, make_pipeline. now rewrite H.
Qed.

(** X9. The pipeline reads, for the members of the universe, the last 200
    closes and the last 7 values of the two sentiment columns, and nothing
    else: two days that agree on the universe and on those windows leave
    the same context after the hook and lead to the same request,
    whatever the older history and the data of the other securities. *)
Theorem only_the_windows_are_read (ctx1 ctx2 : context) (m1 m2 : market) :
  same_windows m1 m2 ->
  before_trading_start the_algo ctx1 m1 = before_trading_start the_algo ctx2 m2 /\
  staged_scores ctx1 m1 = staged_scores ctx2 m2 /\
  match before_trading_start the_algo ctx1 m1, before_trading_start the_algo ctx2 m2 with
  | Some c1, Some c2 => rebalance c1 = rebalance c2 /\ rebalance c1 <> None
  | _, _ => False
  end.
Proof.
  intros H. apply same_windows_same_raw_factors in H.
  apply same_raw_factors_same_output in H.
  pose proof (same_output_same_hook ctx1 ctx2 m1 m2 H) as Hb.
  split; [exact Hb|]. split; [unfold staged_scores; now rewrite Hb|].
  rewrite <- Hb, before_trading_start_eq. split; [reflexivity|discriminate].
Qed.

Lemma only_the_windows_are_read_witness :
  same_windows demo_market demo_market' /\
  history demo_market USEquityPricing_close "A" 300
  <> history demo_market' USEquityPricing_close "A" 300 /\
  before_trading_start the_algo Context.empty demo_market
  = before_trading_start the_algo demo_context demo_market' /\
  staged_scores Context.empty demo_market = staged_scores demo_context demo_market' /\
  match before_trading_start the_algo Context.empty demo_market,
        before_trading_start the_algo demo_context demo_market' with
  | Some c1, Some c2 => rebalance c1 = rebalance c2 /\ rebalance c1 <> None
  | _, _ => False
  end.
Proof.
  assert (H : same_windows demo_market demo_market').
  { split; [reflexivity|]. intros a _. split; [reflexivity|]. intros _.
    assert (E : forall c k, (k < 200)%nat ->
                  history demo_market c a k = history demo_market' c a k).
    { intros c k Hk. cbn [history demo_market demo_market'].
      destruct (Nat.eqb_spec k 300) as [->|_]; [lia|reflexivity]. }
    repeat split; intros k Hk; apply E; lia. }
  split; [exact H|]. split; [vm_compute; discriminate|].
  exact (only_the_windows_are_read Context.empty demo_context demo_market demo_market' H).
Defined.

(** ** Small universes *)

Lemma small_universe_ranks (n : nat) :
  (n < 20)%nat ->
  lower_rank (decimal 1 2) n = 0%nat /\ (n <= upper_rank (decimal 95 2) n)%nat.
Proof.
  intros H.
  assert (C : forallb (fun k => (lower_rank (decimal 1 2) k =? 0)%nat
                                && (k <=? upper_rank (decimal 95 2) k)%nat)
                      (seq 0 20) = true) by (vm_compute; reflexivity).
  rewrite forallb_forall in C. specialize (C n).
  rewrite in_seq, andb_true_iff, Nat.eqb_eq, Nat.leb_le in C. apply C. lia.
Qed.

(** Among fewer than twenty numbers no entry is cut off. *)
Lemma winsorize_row_small (row : list float) :
  (count_nonnan row < 20)%nat ->
  winsorize_row (decimal 1 2) (decimal 95 2) row = row.
Proof.
  intros H. destruct (small_universe_ranks _ H) as [Hlo Hhi].
  rewrite winsorize_row_unfold by reflexivity.
  rewrite Hlo. cbn [firstn]. unfold assign at 2 3. cbn [fold_left].
  destruct (Nat.ltb_spec (upper_rank (decimal 95 2) (count_nonnan row)) (count_nonnan row));
    [lia|reflexivity].
Qed.

Lemma lookup_combine_map_in (cols : list asset) (g : asset -> float) (a : asset) :
  In a cols -> lookup a (combine cols (map g cols)) = Some (g a).
Proof.
  induction cols as [|c cols IH]; simpl; [easy|].
  destruct (String.eqb_spec a c) as [->|Hne]; [reflexivity|].
  intros [->|Hin]; [congruence|now apply IH].
Qed.

(** X10. While fewer than twenty members of the universe have a sentiment
    ratio, winsorization changes nothing: the winsorized ratio of every
    member is its ratio, and the product of its factors is formed with
    the ratio as it is. *)
Theorem small_universe_not_winsorized (m : market) (a : asset) :
  In a (assets m) -> universe m a = true ->
  (count_nonnan (universe_sentiment m) < 20)%nat ->
  value sentiment_score_winsorized m a = value sentiment_score m a /\
  factor_product m a
  = mul (mul (value sentiment_score m a) (value recent_returns_zscore m a))
        (value mean_average_multiplier m a).
Proof.
  intros Hin Hu Hn.
  assert (E : value sentiment_score_winsorized m a = value sentiment_score m a).
  { unfold sentiment_score_winsorized, winsorize, GroupedRowTransform. cbn [value].
    replace (Filter_and universe (mask sentiment_score) m a) with true
      by (unfold Filter_and; now rewrite Hu).
    rewrite universe_mask_rows. fold (universe_sentiment m).
    rewrite (winsorize_row_small _ Hn). unfold universe_sentiment.
    rewrite lookup_combine_map_in; [reflexivity|]. apply filter_In. now split. }
  split; [exact E|]. unfold factor_product. now rewrite E.
Qed.

Lemma small_universe_not_winsorized_witness :
  In "D" (assets demo_market) /\ universe demo_market "D" = true /\
  (count_nonnan (universe_sentiment demo_market) < 20)%nat /\
  value sentiment_score_winsorized demo_market "D" = value sentiment_score demo_market "D" /\
  factor_product demo_market "D"
  = mul (mul (value sentiment_score demo_market "D")
             (value recent_returns_zscore demo_market "D"))
        (value mean_average_multiplier demo_market "D").
Proof.
  assert (H1 : In "D" (assets demo_market)) by (do 3 right; left; reflexivity).
  assert (H2 : universe demo_market "D" = true) by reflexivity.
  assert (H3 : (count_nonnan (universe_sentiment demo_market) < 20)%nat)
    by (apply Nat.ltb_lt; vm_compute; reflexivity).
  split; [exact H1|]. split; [exact H2|]. split; [exact H3|].
  exact (small_universe_not_winsorized demo_market "D" H1 H2 H3).
Defined.

(** ** Bounds of the winsorized ratio *)







